(** * webapp/main.py: static router, request handler, datagram relay and
      receive-parse-persist loop

    A shallow embedding of [src/webapp/main.py].  The program is a small
    HTTP server ([AppHandler]) that serves files below [STATIC_DIR], relays
    the body of [POST /message] as one UDP datagram ([send_udp]), and a
    second process ([run_socket_server]) that parses each datagram as a
    form ([parse_form_bytes]) and inserts a document into a store.

    Conventions of the embedding:
    - Python [bytes] are [list byte]; Python [str] is [string].  A [str]
      obtained by decoding UTF-8 is held as the string of its UTF-8 code
      units, so ASCII text is itself and the delimiters the program looks at
      (['/'], ['&'], ['='], ['+'], ['%']) are single characters.
    - Exceptions are values: a computation is a trace of the effects it
      performed together with either its result or the exception that left
      it ([M]); [try ... except] is [try_except].
    - What the operating system, the network, the store and the library
      tables decide is an explicit environment ([Env], [Arrival]). *)

From Stdlib Require Import Strings.String Strings.Ascii Strings.Byte ZArith List.
From stdpp Require Import gmap strings list pretty.

Open Scope string_scope.
Open Scope nat_scope.
Open Scope list_scope.

(** ** Python values, exceptions and effects *)

Definition bytes := list byte.

(** A byte-string literal, [b"..."]. *)
Definition b (s : string) : bytes := list_byte_of_string s.

(** The exceptions the program can meet, by class. *)
Inductive exn :=
| OSError
| ValueError
| IndexError
| TypeError
| RuntimeError
| OverflowError
| MemoryError
| PyMongoError.

#[global] Instance exn_eq_dec : EqDecision exn.
Proof. solve_decision. Defined.

(** What an [except] clause names: one of the classes above, or
    [Exception], the base of them all. *)
Inductive exn_class :=
| Exception
| Only (e : exn).

Definition isinstance (e : exn) (c : exn_class) : bool :=
  match c with
  | Exception => true
  | Only e' => bool_decide (e = e')
  end.

Inductive result (A : Type) :=
| Ok (a : A)
| Raise (e : exn).
Arguments Ok {A} a.
Arguments Raise {A} e.

(** A file location: the parts of an absolute [pathlib.Path], root first. *)
Definition Path := list string.

(** The document built for one datagram (the dict literal of
    [run_socket_server]). *)
Record Document := mkDocument {
  date : string;
  username : string;
  message : string
}.

(** The effects the program performs, in the order it performs them.
    [SendResponse], [SendHeader], [EndHeaders] and [WfileWrite] are the calls
    [send_response], [send_header], [end_headers] and [wfile.write] on the
    handler ([send_response] with the Server and Date headers and the access
    log record that come with every call of it); [LogException] and
    [LogInfo] are the records the program itself writes; [Sendto] is a
    datagram that left for the socket server, [InsertOne] a document the
    store accepted. *)
Inductive Event :=
| SendResponse (code : Z)
| SendHeader (keyword value : string)
| EndHeaders
| WfileWrite (data : bytes)
| LogException (msg : string)
| LogInfo (msg : string)
| Sendto (payload : bytes)
| InsertOne (doc : Document).

(** A computation: the effects performed, and how it ended. *)
Definition M (A : Type) : Type := list Event * result A.

Definition ret {A} (a : A) : M A := ([], Ok a).
Definition raise {A} (e : exn) : M A := ([], Raise e).
Definition emit (ev : Event) : M unit := ([ev], Ok tt).

Definition bind {A B} (k : A -> M B) (m : M A) : M B :=
  match m with
  | (t, Ok a) => let '(t', r) := k a in (t ++ t', r)
  | (t, Raise e) => (t, Raise e)
  end%list.

#[global] Instance M_ret : MRet M := @ret.
#[global] Instance M_bind : MBind M := @bind.

(** The first clause of a [try] statement that names the class of [e]. *)
Fixpoint find_clause {A} (e : exn) (clauses : list (exn_class * M A))
  : option (M A) :=
  match clauses with
  | [] => None
  | (c, handler) :: rest =>
      if isinstance e c then Some handler else find_clause e rest
  end.

(** [try: body / except c1: h1 / except c2: h2 ...]: the first clause that
    names the exception handles it; an exception no clause names, and one
    raised by a handler, go on to the caller. *)
Definition try_except {A} (body : M A) (clauses : list (exn_class * M A))
  : M A :=
  match body with
  | (t, Raise e) =>
      match find_clause e clauses with
      | Some (t', r) => (t ++ t', r)
      | None => (t, Raise e)
      end
  | finished => finished
  end%list.

(** A library call that returns or raises, as the environment answers. *)
Definition lift {A} (r : result A) : M A := ([], r).

(** A library call that raises [e] when the environment answers [None]. *)
Definition call {A} (e : exn) (o : option A) : M A :=
  match o with
  | Some a => ret a
  | None => raise e
  end.

Definition trace {A} (m : M A) : list Event := fst m.
Definition outcome {A} (m : M A) : result A := snd m.

(** ** str methods *)

(** [s.lstrip(c)] for a one-character [c]. *)
Fixpoint lstrip (c : ascii) (s : string) : string :=
  match s with
  | String a s' => if Ascii.eqb a c then lstrip c s' else s
  | EmptyString => EmptyString
  end.

(** [s.split(sep)] for a one-character [sep]. *)
Fixpoint split (sep : ascii) (s : string) : list string :=
  match s with
  | EmptyString => [EmptyString]
  | String a s' =>
      if Ascii.eqb a sep then EmptyString :: split sep s'
      else match split sep s' with
           | w :: ws => String a w :: ws
           | [] => [String a EmptyString]
           end
  end.

(** [sep.join(l)]. *)
Fixpoint join (sep : string) (l : list string) : string :=
  match l with
  | [] => ""
  | [w] => w
  | w :: ws => w ++ sep ++ join sep ws
  end.

(** [s in (a, b, ...)]. *)
Definition str_in (s : string) (l : list string) : bool :=
  existsb (String.eqb s) l.

(** ** pathlib *)

Module pathlib.

(** The parts of a path string: empty and ["."] segments vanish,
    [".."] stays. *)
Definition parse_parts (s : string) : list string :=
  filter (fun c => c ≠ "" ∧ c ≠ ".") (split "/" s).

Definition is_absolute (s : string) : bool :=
  match s with
  | String "/" _ => true
  | _ => false
  end.

(** [p / s]: an absolute [s] replaces [p]. *)
Definition div (p : Path) (s : string) : Path :=
  if is_absolute s then parse_parts s else (p ++ parse_parts s)%list.

(** [p.name]: the last part, [""] for the root. *)
Definition name (p : Path) : string := List.last p "".

(** The proper prefixes of [p], the root first. *)
Fixpoint ancestors (p : Path) : list Path :=
  match p with
  | [] => []
  | c :: q => [] :: map (cons c) (ancestors q)
  end.

(** [p.parents]: the logical ancestors, the nearest first. *)
Definition parents (p : Path) : list Path := reverse (ancestors p).

(** [str(p)]. *)
Definition str (p : Path) : string := "/" ++ join "/" p.

End pathlib.

Notation "p // s" := (pathlib.div p s) (at level 40, left associativity).

(** ** The UTF-8 codec: [bytes.decode("utf-8", errors)]

    After CPython's decoder.  A well-formed sequence is kept; an ill-formed
    one is an error that spans the lead byte and the continuation bytes that
    were still acceptable, and decoding goes on right behind it.  The error
    handler decides what the error leaves in the text: nothing ([ignore])
    or U+FFFD ([replace]). *)

Module codecs.

Inductive errors :=
| ignore
| replace.

Definition between (lo hi : N) (x : byte) : bool :=
  ((lo <=? Byte.to_N x) && (Byte.to_N x <=? hi))%N.

Definition continuation (x : byte) : bool := between 0x80 0xBF x.

(** The second byte a lead byte admits (no overlong forms, no surrogates,
    nothing above U+10FFFF). *)
Definition second (lead x : byte) : bool :=
  match Byte.to_N lead with
  | 0xE0 => between 0xA0 0xBF x
  | 0xED => between 0x80 0x9F x
  | 0xF0 => between 0x90 0xBF x
  | 0xF4 => between 0x80 0x8F x
  | _ => continuation x
  end%N.

(** What stands at the head of the input: a character of [k] bytes, or an
    error spanning [k] bytes. *)
Inductive step :=
| Char (k : nat)
| Bad (k : nat).

Definition utf8_step (bs : bytes) : step :=
  match bs with
  | [] => Bad 0
  | lead :: rest =>
      let c := Byte.to_N lead in
      if (c <? 0x80)%N then Char 1
      else if (c <? 0xC2)%N then Bad 1
      else if (c <? 0xE0)%N then
        match rest with
        | x1 :: _ => if continuation x1 then Char 2 else Bad 1
        | [] => Bad 1
        end
      else if (c <? 0xF0)%N then
        match rest with
        | x1 :: x2 :: _ =>
            if negb (second lead x1) then Bad 1
            else if continuation x2 then Char 3 else Bad 2
        | [x1] => if second lead x1 then Bad 2 else Bad 1
        | [] => Bad 1
        end
      else if (c <? 0xF5)%N then
        match rest with
        | x1 :: x2 :: x3 :: _ =>
            if negb (second lead x1) then Bad 1
            else if negb (continuation x2) then Bad 2
            else if continuation x3 then Char 4 else Bad 3
        | [x1; x2] =>
            if negb (second lead x1) then Bad 1
            else if continuation x2 then Bad 3 else Bad 2
        | [x1] => if second lead x1 then Bad 2 else Bad 1
        | [] => Bad 1
        end
      else Bad 1
  end.

(** U+FFFD in UTF-8. *)
Definition replacement : bytes := [xef; xbf; xbd].

Fixpoint decode_loop (fuel : nat) (e : errors) (bs : bytes) : bytes :=
  match fuel, bs with
  | S fuel', _ :: _ =>
      match utf8_step bs with
      | Char k => take k bs ++ decode_loop fuel' e (drop k bs)
      | Bad k =>
          match e with
          | ignore => decode_loop fuel' e (drop k bs)
          | replace => replacement ++ decode_loop fuel' e (drop k bs)
          end
      end
  | _, _ => []
  end%list.

(** Every step consumes a byte, so [length bs] steps reach the end. *)
Definition decode (e : errors) (bs : bytes) : string :=
  string_of_list_byte (decode_loop (length bs) e bs).

(** [s.encode("utf-8")]. *)
Definition encode (s : string) : bytes := list_byte_of_string s.

End codecs.

(** ** urllib.parse (CPython 3.10 and later: ['&'] is the only separator) *)

Module urllib.

Definition hex_value (a : ascii) : option N :=
  let c := N_of_ascii a in
  if ((48 <=? c) && (c <=? 57))%N then Some (c - 48)%N
  else if ((65 <=? c) && (c <=? 70))%N then Some (c - 55)%N
  else if ((97 <=? c) && (c <=? 102))%N then Some (c - 87)%N
  else None.

(** One item of [string.split('%')[1:]]: two hex digits give a byte, anything
    else keeps its ['%']. *)
Definition unquote_item (item : string) : bytes :=
  match item with
  | String h (String l rest) =>
      match hex_value h, hex_value l with
      | Some x, Some y =>
          default x00 (Byte.of_N (16 * x + y)) :: codecs.encode rest
      | _, _ => "%"%byte :: codecs.encode item
      end
  | _ => "%"%byte :: codecs.encode item
  end.

Definition unquote_to_bytes (s : string) : bytes :=
  match split "%" s with
  | first :: (_ :: _) as items =>
      (codecs.encode first ++ concat (map unquote_item items))%list
  | _ => codecs.encode s
  end.

Definition is_ascii (a : ascii) : bool := (N_of_ascii a <? 128)%N.

(** The parts of [unquote]: every maximal run of ASCII characters is
    percent-decoded and read as UTF-8 with [errors='replace']; what lies
    between the runs is kept.  [run] is the run being read, last character
    first. *)
Fixpoint unquote_parts (run : list ascii) (s : string) : string :=
  let flush :=
    codecs.decode codecs.replace
      (unquote_to_bytes (string_of_list_ascii (rev run))) in
  match s with
  | EmptyString => flush
  | String a s' =>
      if is_ascii a then unquote_parts (a :: run) s'
      else flush ++ String a (unquote_parts [] s')
  end.

Definition contains (c : ascii) (s : string) : bool :=
  existsb (Ascii.eqb c) (list_ascii_of_string s).

Definition unquote (s : string) : string :=
  if contains "%" s then unquote_parts [] s else s.

(** [s.replace('+', ' ')]. *)
Fixpoint plus_to_space (s : string) : string :=
  match s with
  | EmptyString => EmptyString
  | String a s' =>
      String (if Ascii.eqb a "+" then " "%char else a) (plus_to_space s')
  end.

(** [s.split(sep, 1)]. *)
Fixpoint split1 (sep : ascii) (s : string) : list string :=
  match s with
  | EmptyString => [EmptyString]
  | String a s' =>
      if Ascii.eqb a sep then [EmptyString; s']
      else match split1 sep s' with
           | w :: ws => String a w :: ws
           | [] => [String a EmptyString]
           end
  end.

(** One turn of the loop of [parse_qsl] with [keep_blank_values=False] and
    [strict_parsing=False]: the pair appended to the result, or [None] when
    the field is skipped. *)
Definition parse_field (name_value : string) : option (string * string) :=
  if String.eqb name_value "" then None
  else
    match split1 "=" name_value with
    | [name; value] =>
        if (0 <? String.length value)%nat
        then Some (unquote (plus_to_space name), unquote (plus_to_space value))
        else None
    | _ => None
    end.

Definition parse_qsl (qs : string) : list (string * string) :=
  let query_args := if String.eqb qs "" then [] else split "&" qs in
  omap parse_field query_args.

(** One turn of the loop of [parse_qs]. *)
Definition add_pair (parsed_result : gmap string (list string))
  (pair : string * string) : gmap string (list string) :=
  let '(name, value) := pair in
  match parsed_result !! name with
  | Some values => <[name := (values ++ [value])%list]> parsed_result
  | None => <[name := [value]]> parsed_result
  end.

Definition parse_qs (qs : string) : gmap string (list string) :=
  foldl add_pair ∅ (parse_qsl qs).

End urllib.

(** ** Form parsing *)

(** Truth of [data.get(k)]: [None] and the empty list are false. *)
Definition truthy (v : option (list string)) : bool :=
  match v with
  | Some (_ :: _) => true
  | _ => false
  end.

(** [x or y]. *)
Definition or_ (x y : option (list string)) : option (list string) :=
  if truthy x then x else y.

(** [v[0]]. *)
Definition getitem0 (v : option (list string)) : M string :=
  match v with
  | Some (x :: _) => ret x
  | Some [] => raise IndexError
  | None => raise TypeError
  end.

Definition parse_form_bytes (payload : bytes) : M (gmap string string) :=
  decoded ← try_except
              (ret (codecs.decode codecs.ignore payload))
              [(Exception, ret "")];
  let data := urllib.parse_qs decoded in
  username ← getitem0 (or_ (data !! "username")
                         (or_ (data !! "name") (Some [""])));
  message ← getitem0 (or_ (data !! "message") (Some [""]));
  ret {[ "username" := username; "message" := message ]}.

(** ** Datagram receiver and persister *)

(** What the world answers during one turn of the receive loop: the
    datagram [recvfrom] returns ([None]: it raises [OSError]), the time
    [datetime.now().isoformat(sep=" ", timespec="microseconds")] gives, and
    whether [insert_one] succeeds ([None]: it raises [PyMongoError]). *)
Record Arrival := mkArrival {
  recvfrom : option bytes;
  now : string;
  insert_one : option unit
}.

Definition collection_insert_one (a : Arrival) (doc : Document) : M unit :=
  call PyMongoError (insert_one a);; emit (InsertOne doc).

(** The body of [while True:] in [run_socket_server]. *)
Definition serve_datagram (a : Arrival) : M unit :=
  try_except
    (payload ← call OSError (recvfrom a);
     data ← parse_form_bytes payload;
     let doc := {| date := now a;
                   username := default "" (data !! "username");
                   message := default "" (data !! "message") |} in
     collection_insert_one a doc;;
     emit (LogInfo ("saved message for user: " ++ username doc)))
    [(Only PyMongoError, emit (LogException "mongodb error"));
     (Only OSError, emit (LogException "socket error"))].

(** The receive loop of [run_socket_server] over its first turns, one per
    element of [arrivals]; reaching the end of the list is reaching the
    next turn. *)
Fixpoint run_socket_server (arrivals : list Arrival) : M unit :=
  match arrivals with
  | [] => ret tt
  | a :: rest => serve_datagram a;; run_socket_server rest
  end.

(** The documents a run has handed to the store, oldest first. *)
Definition stored (t : list Event) : list Document :=
  omap (fun ev => match ev with InsertOne doc => Some doc | _ => None end) t.

(** ** Start of the socket server *)

(** What the world answers while [run_socket_server] starts, before its
    loop: [setup_logging()] opens app.log ([None]: [OSError]);
    [MongoClient(...)], [client.admin.command("ping")] and
    [client[MONGO_DB][MONGO_COLLECTION]] return or raise; creating and
    binding the socket succeeds or raises [OSError]. *)
Record Startup := mkStartup {
  logging_setup : option unit;
  mongo_client : result unit;
  ping : result unit;
  collection : result unit;
  bind_socket : option unit
}.

(** [run_socket_server] from its first line: the start-up of lines 172-185,
    then the receive loop.  Only the ping stands in a [try]. *)
Definition run_socket_server_from_start (socket_port : Z) (w : Startup)
  (arrivals : list Arrival) : M unit :=
  call OSError (logging_setup w);;
  emit (LogInfo ("socket server starting on 0.0.0.0:" ++ pretty socket_port
                 ++ " (udp)"));;
  lift (mongo_client w);;
  try_except
    (lift (ping w))
    [(Exception, emit (LogException "cannot connect to mongodb"))];;
  lift (collection w);;
  call OSError (bind_socket w);;
  run_socket_server arrivals.

(** ** One HTTP request *)

(** [sys.maxsize] of a 64-bit build. *)
Definition sys_maxsize : Z := 9223372036854775807.

(** The exception of a read of [n] bytes that is not given its buffer.
    Above [sys.maxsize] the number is no index, and up to 32 below it the
    [bytes] object with its header would be larger than any object may be:
    [OverflowError].  Below that the allocator has refused:
    [MemoryError]. *)
Definition read_refusal (n : Z) : exn :=
  if (sys_maxsize - 33 <? n)%Z then OverflowError else MemoryError.

(** What [BaseHTTPRequestHandler] has parsed when [do_GET] or [do_POST]
    runs, for a request target that [urlparse] accepts: [path] is
    [urlparse(self.path).path], [headers_get k] is [self.headers.get(k)],
    [rfile] holds the bytes the client sends after the header block
    before it stops sending, and [closes] says whether it then closes its
    side of the connection or keeps it open. *)
Record Request := mkRequest {
  path : string;
  headers_get : string -> option string;
  rfile : bytes;
  closes : bool
}.

(** A read of [n] bytes that has its buffer never returns: fewer bytes
    arrive and the client keeps its side of the connection open. *)
Definition rfile_read_waits (req : Request) (n : Z) : bool :=
  (Z.of_nat (length (rfile req)) <? n)%Z && negb (closes req).

(** ** The environment of the HTTP process *)

(** What the file system, the MIME table, [int] and the network answer.
    [Path.resolve] returns the canonical path or raises: [OSError], and
    also [RuntimeError] (a symbolic-link loop, before Python 3.13) and
    [ValueError] (a NUL in the path).  For the other calls [None] is the
    one exception the library raises for them: [OSError] for the file
    system and the socket, [ValueError] for [int] of a string.  [maxsize]
    is the largest number of bytes for which [rfile.read] is given its
    buffer in this process: the read asks for a [bytes] object of the
    whole size before it reads, and the machine decides up to which size
    there is one; it lies below [sys_maxsize - 32], from where on the size
    alone is refused.  The connection to the client is taken to hold. *)
Record Env := mkEnv {
  BASE_DIR : Path;
  resolve : Path -> result Path;
  is_file : Path -> option bool;
  read_bytes : Path -> option bytes;
  guess_type : string -> option string;
  int : string -> option Z;
  maxsize : Z;
  sendto : bytes -> option unit
}.

Section Program.

Variable env : Env.

Definition STATIC_DIR : Path := BASE_DIR env // "front-init".

(** ** Static router *)

Definition file_path_for_route (route_path : string) : M Path :=
  if str_in route_path ["/"; "/index.html"] then
    ret (STATIC_DIR // "index.html")
  else if str_in route_path ["/message"; "/message.html"] then
    ret (STATIC_DIR // "message.html")
  else if String.eqb route_path "/error.html" then
    ret (STATIC_DIR // "error.html")
  else if String.eqb route_path "/style.css" then
    ret (STATIC_DIR // "style.css")
  else if String.eqb route_path "/logo.png" then
    ret (STATIC_DIR // "logo.png")
  else
    let safe := lstrip "/" route_path in
    let candidate := STATIC_DIR // safe in
    (* [Some p]: the [return] inside the [try]; [None]: the [try] was left
       without returning, by the end of its body or through [except]. *)
    found ← try_except
              (candidate_resolved ← lift (resolve env candidate);
               if bool_decide (STATIC_DIR ∈ pathlib.parents candidate_resolved)
               then regular ← call OSError (is_file env candidate_resolved);
                    if (regular : bool) then ret (Some candidate_resolved)
                    else ret None
               else ret None)
              [(Only OSError, ret None)];
    match found with
    | Some candidate_resolved => ret candidate_resolved
    | None => ret (STATIC_DIR // "error.html")
    end.

(** ** Datagram relay *)

(** [socket.socket(...)] and [s.sendto(payload, ...)]: the datagram leaves,
    or the call raises [OSError].  [SOCKET_PORT] is taken to be a port
    number, 0 to 65535; for another value [sendto] refuses its argument
    with an [OverflowError], which is no answer of the network. *)
Definition socket_sendto (payload : bytes) : M unit :=
  call OSError (sendto env payload);; emit (Sendto payload).

Definition send_udp (payload : bytes) : M unit :=
  try_except
    (socket_sendto payload)
    [(Only OSError, emit (LogException "failed to send udp message"))].

(** ** Request handler *)

(** The value of [content_type] after [if not content_type: ...]. *)
Definition content_type_of (p : Path) : string :=
  match guess_type env (pathlib.str p) with
  | Some ct => if String.eqb ct "" then "application/octet-stream" else ct
  | None => "application/octet-stream"
  end.

Definition _serve_file (p : Path) (status : Z) : M unit :=
  (* [Some data]: the [try] ended normally; [None]: the handler returned. *)
  read ← try_except
           (data ← call OSError (read_bytes env p); ret (Some data))
           [(Only OSError,
             emit (LogException ("failed to read file: " ++ pathlib.str p));;
             emit (SendResponse 500);;
             emit EndHeaders;;
             ret None)];
  match read with
  | None => ret tt
  | Some data =>
      let content_type := content_type_of p in
      emit (SendResponse status);;
      emit (SendHeader "Content-Type" content_type);;
      emit (SendHeader "Content-Length" (pretty (length data)));;
      emit EndHeaders;;
      emit (WfileWrite data)
  end.

Definition _serve_path (route_path : string) : M unit :=
  p ← file_path_for_route route_path;
  _serve_file p 200.

Definition _serve_404 : M unit :=
  let p := STATIC_DIR // "error.html" in
  _serve_file p 404.

Definition do_GET (req : Request) : M unit :=
  let path := path req in
  if str_in path ["/"; "/index.html"; "/message"; "/message.html";
                  "/style.css"; "/logo.png"]
  then _serve_path path
  else
    candidate ← file_path_for_route path;
    if String.eqb (pathlib.name candidate) "error.html" then _serve_404
    else _serve_file candidate 200.

(** [self.rfile.read(n)] for [n > 0], on the buffered reader of the
    connection.  The read first asks for a buffer of [n] bytes, and raises
    [read_refusal n] when there is none.  With the buffer it reads until
    [n] bytes have arrived or the client has closed its side, and returns
    the next [n] bytes, or all that arrived when the stream ended sooner.
    The handler sets no timeout: while fewer than [n] bytes have arrived
    and the client keeps its side open the read waits, and
    [rfile_read_waits] says when that is for ever.  [rfile_read] is what the
    call does when it does not wait for ever. *)
Definition rfile_read (stream : bytes) (n : Z) : M bytes :=
  if (maxsize env <? n)%Z then raise (read_refusal n)
  else ret (take (Z.to_nat n) stream).

Definition do_POST (req : Request) : M unit :=
  if negb (String.eqb (path req) "/message") then _serve_404
  else
    length ← try_except
               (call ValueError
                  (int env (default "0" (headers_get req "Content-Length"))))
               [(Only ValueError, ret 0%Z)];
    body ← (if (0 <? length)%Z then rfile_read (rfile req) length
            else ret []);
    (* forward raw form data to socket server *)
    send_udp body;;
    (* redirect back to main page *)
    emit (SendResponse 302);;
    emit (SendHeader "Location" "/");;
    emit EndHeaders.

End Program.

(** ** Vocabulary of the specification *)

(** [p] lies strictly below [root]. *)
Definition descendant (root p : Path) : Prop :=
  ∃ rest, rest ≠ [] ∧ p = root ++ rest.

(** The designated error-page location. *)
Definition error_page (env : Env) : Path := STATIC_DIR env // "error.html".

(** The paths with an entry of their own in [file_path_for_route]. *)
Definition literal_routes : list string :=
  ["/"; "/index.html"; "/message"; "/message.html"; "/error.html";
   "/style.css"; "/logo.png"].

(** The candidate location the router's fallback builds for a path. *)
Definition candidate_of (env : Env) (route_path : string) : Path :=
  STATIC_DIR env // lstrip "/" route_path.

(** The router's result as the specification words it: a file that exists
    strictly below the static root, or the error page. *)
Definition existing_file_or_error_page (env : Env) (route_path : string)
  : Prop :=
  ∃ p, file_path_for_route env route_path = ret p ∧
       ((descendant (STATIC_DIR env) p ∧ is_file env p = Some true)
        ∨ p = error_page env).

(** The events of a file response. *)
Definition respond (status : Z) (content_type : string) (data : bytes)
  : list Event :=
  [SendResponse status;
   SendHeader "Content-Type" content_type;
   SendHeader "Content-Length" (pretty (length data));
   EndHeaders;
   WfileWrite data].

(** The events of the answer to a failed read of [p]. *)
Definition respond_500 (p : Path) : list Event :=
  [LogException ("failed to read file: " ++ pathlib.str p);
   SendResponse 500;
   EndHeaders].

(** The events of the redirect to the main page. *)
Definition redirect : list Event :=
  [SendResponse 302; SendHeader "Location" "/"; EndHeaders].

(** What goes to the client: the status line, the headers, the body. *)
Definition to_client (ev : Event) : bool :=
  match ev with
  | SendResponse _ | SendHeader _ _ | EndHeaders | WfileWrite _ => true
  | _ => false
  end.

Definition response_of (t : list Event) : list Event :=
  List.filter to_client t.

Definition status_of (t : list Event) : option Z :=
  head (omap (λ ev, match ev with SendResponse c => Some c | _ => None end) t).

Definition body_of (t : list Event) : bytes :=
  concat (omap (λ ev, match ev with WfileWrite d => Some d | _ => None end) t).

(** A GET answer as the specification words it: 404 with the error page
    when the router returned the error-page location, 200 with the
    resolved file otherwise. *)
Definition answers_by_location (env : Env) (req : Request) : Prop :=
  ∃ p, file_path_for_route env (path req) = ret p ∧
       if bool_decide (p = error_page env)
       then ∃ data, read_bytes env p = Some data ∧
                    do_GET env req
                      = (respond 404 (content_type_of env p) data, Ok tt)
       else ∃ data, read_bytes env p = Some data ∧
                    do_GET env req
                      = (respond 200 (content_type_of env p) data, Ok tt).

(** The answer to a GET for an error.html as the specification words it:
    status 404 and the body of the error page. *)
Definition answers_404_with_error_page (env : Env) (req : Request) : Prop :=
  status_of (trace (do_GET env req)) = Some 404%Z ∧
  read_bytes env (error_page env) = Some (body_of (trace (do_GET env req))).

(** A failed read as the specification words it: whenever the router
    returned a location other than the error page and that file cannot be
    read, the answer is 500 without a body. *)
Definition unreadable_is_500 (env : Env) (req : Request) : Prop :=
  ∀ p, file_path_for_route env (path req) = ret p →
       p ≠ error_page env →
       read_bytes env p = None →
       status_of (trace (do_GET env req)) = Some 500%Z ∧
       body_of (trace (do_GET env req)) = [].

(** The length [do_POST] reads: the value of the header through [int],
    ["0"] standing in for a missing header and 0 for a [ValueError]. *)
Definition content_length (env : Env) (req : Request) : Z :=
  default 0%Z (int env (default "0" (headers_get req "Content-Length"))).


(** The answer to a POST as the specification words it: the redirect. *)
Definition answers_with_redirect (env : Env) (req : Request) : Prop :=
  outcome (do_POST env req) = Ok tt ∧
  response_of (trace (do_POST env req)) = redirect.

(** The values the pairs of a query string give to [key], in order. *)
Definition values_of (key : string) (pairs : list (string * string))
  : list string :=
  omap (λ pair, if String.eqb (fst pair) key then Some (snd pair) else None)
       pairs.

(** Field extraction as the specification describes it: the candidate field
    names are tried in order, the first one that is present gives its first
    value, and the empty string stands for none. *)
Fixpoint first_present (candidates : list string)
  (pairs : list (string * string)) : string :=
  match candidates with
  | [] => ""
  | key :: rest =>
      match values_of key pairs with
      | value :: _ => value
      | [] => first_present rest pairs
      end
  end.

(** The pairs of a datagram. *)
Definition pairs_of (payload : bytes) : list (string * string) :=
  urllib.parse_qsl (codecs.decode codecs.ignore payload).

(** The document the loop builds for a datagram that arrived as [a]. *)
Definition document_of (a : Arrival) (payload : bytes) : Document :=
  {| date := now a;
     username := first_present ["username"; "name"] (pairs_of payload);
     message := first_present ["message"] (pairs_of payload) |}.

(** The document one turn of the loop hands to the store, if any: the
    datagram must have been received and the insert must have succeeded. *)
Definition accepted (a : Arrival) : option Document :=
  match recvfrom a, insert_one a with
  | Some payload, Some _ => Some (document_of a payload)
  | _, _ => None
  end.

(** The kinds of effect. *)
Definition is_log (ev : Event) : bool :=
  match ev with
  | LogException _ | LogInfo _ => true
  | _ => false
  end.

Definition relays (ev : Event) : bool :=
  match ev with
  | Sendto _ => true
  | _ => false
  end.

Definition persists (ev : Event) : bool :=
  match ev with
  | InsertOne _ => true
  | _ => false
  end.

(** A form as a browser writes it when no character needs escaping: the
    fields [name=value], joined by ['&']. *)
Definition form (fields : list (string * string)) : string :=
  join "&" (map (λ field, (fst field ++ "=" ++ snd field)%string) fields).

(** Text that stands for itself in a form: ASCII without the four
    characters the form syntax gives a meaning to. *)
Definition safe_char (a : ascii) : bool :=
  urllib.is_ascii a
  && negb (Ascii.eqb a "&") && negb (Ascii.eqb a "=")
  && negb (Ascii.eqb a "+") && negb (Ascii.eqb a "%").

Definition safe (s : string) : bool :=
  forallb safe_char (list_ascii_of_string s).

(** The fields with a value. *)
Definition with_value (fields : list (string * string))
  : list (string * string) :=
  filter (λ field, snd field ≠ "") fields.

(** ** Concrete environments

    A disk without symbolic links, on which [Path.resolve] is the lexical
    collapse of [".."] parts and refuses a NUL; used to run the program on
    examples.  It gives a read a buffer of at most 4 GiB. *)

(** A regular file: its bytes, or [None] when it cannot be opened for
    reading. *)
Definition Disk := gmap Path (option bytes).

Fixpoint collapse (seen : list string) (parts : list string) : Path :=
  match parts with
  | [] => rev seen
  | c :: rest =>
      if String.eqb c ".." then collapse (tail seen) rest
      else collapse (c :: seen) rest
  end.

Definition suffix_of (suf s : string) : bool :=
  let n := String.length s - String.length suf in
  String.eqb (substring n (String.length suf) s) suf
  && (String.length suf <=? String.length s).

Definition guess_by_suffix (s : string) : option string :=
  if suffix_of ".html" s then Some "text/html"
  else if suffix_of ".css" s then Some "text/css"
  else if suffix_of ".png" s then Some "image/png"
  else None.

(** [int(s)] for a string of ASCII characters: blanks around the number,
    an optional sign, and decimal digits with single underscores allowed
    between them, 4300 digits at most; anything else is a [ValueError].
    The digits and blanks outside ASCII that [int] accepts as well are
    taken as a [ValueError] here. *)
Definition is_blank (a : ascii) : bool :=
  let c := N_of_ascii a in
  ((9 <=? c) && (c <=? 13) || (c =? 32))%N.

Fixpoint lstrip_blank (l : list ascii) : list ascii :=
  match l with
  | a :: l' => if is_blank a then lstrip_blank l' else l
  | [] => []
  end.

Definition strip_blank (l : list ascii) : list ascii :=
  rev (lstrip_blank (rev (lstrip_blank l))).

(** The value and the number of the digits of [l]; [after_digit] says
    whether the character before was a digit, which an underscore and the
    end need. *)
Fixpoint digits_value (acc : Z) (count : nat) (after_digit : bool)
  (l : list ascii) : option (Z * nat) :=
  match l with
  | [] => if after_digit then Some (acc, count) else None
  | a :: l' =>
      let d := Z.of_N (N_of_ascii a) in
      if ((48 <=? d) && (d <=? 57))%Z
      then digits_value (10 * acc + (d - 48)) (S count) true l'
      else if Ascii.eqb a "_" && after_digit
           then digits_value acc count false l'
           else None
  end.

Definition int_of_digits (s : string) : option Z :=
  let l := strip_blank (list_ascii_of_string s) in
  let '(sign, l) :=
    match l with
    | "+"%char :: l' => (1%Z, l')
    | "-"%char :: l' => ((-1)%Z, l')
    | _ => (1%Z, l)
    end in
  match digits_value 0 0 false l with
  | Some (value, count) =>
      if 4300 <? count then None else Some (sign * value)%Z
  | None => None
  end.

Definition disk_env (base : Path) (disk : Disk) (network_up : bool) : Env :=
  {| BASE_DIR := base;
     resolve := λ p,
       if existsb (urllib.contains "000"%char) p then Raise ValueError
       else Ok (collapse [] p);
     is_file := λ p, Some (bool_decide (is_Some (disk !! p)));
     read_bytes := λ p, mjoin (disk !! p);
     guess_type := guess_by_suffix;
     int := int_of_digits;
     maxsize := 4294967296;
     sendto := λ _, if network_up then Some tt else None |}.

Definition site : Path := ["srv"; "app"].

(** The example site: an error page, a stylesheet, a nested page that is
    also called error.html, a file nobody may read, and a file next to the
    static root. *)
Definition disk0 : Disk :=
  {[ ["srv"; "app"; "front-init"; "error.html"] := Some (b "<h1>404</h1>");
     ["srv"; "app"; "front-init"; "style.css"] := Some (b "body{}");
     ["srv"; "app"; "front-init"; "sub"; "error.html"] := Some (b "nested");
     ["srv"; "app"; "front-init"; "locked.txt"] := None;
     ["srv"; "app"; "secret"] := Some (b "s3cr3t") ]}.

Definition env0 : Env := disk_env site disk0 true.

(** The example site with its nested error.html made unreadable. *)
Definition disk1 : Disk :=
  <[ ["srv"; "app"; "front-init"; "sub"; "error.html"] := None ]> disk0.

Definition env1 : Env := disk_env site disk1 true.

(** The example site with the network down. *)
Definition env2 : Env := disk_env site disk0 false.

(** The example site with its error page made unreadable. *)
Definition disk3 : Disk :=
  <[ ["srv"; "app"; "front-init"; "error.html"] := None ]> disk0.

Definition env3 : Env := disk_env site disk3 true.

(** A GET of [p]. *)
Definition get (p : string) : Request :=
  {| path := p; headers_get := λ _, None; rfile := []; closes := false |}.

(** A POST to [p] with the given [Content-Length] value and body stream,
    from a client that closes its side of the connection after the
    body. *)
Definition post (p : string) (announced : option string) (stream : bytes)
  : Request :=
  {| path := p;
     headers_get := λ k,
       if String.eqb k "Content-Length" then announced else None;
     rfile := stream;
     closes := true |}.

(** The same from a client that keeps the connection open, as a browser
    does while it waits for the answer. *)
Definition post_open (p : string) (announced : option string)
  (stream : bytes) : Request :=
  {| path := p;
     headers_get := λ k,
       if String.eqb k "Content-Length" then announced else None;
     rfile := stream;
     closes := false |}.

(** * Properties *)

(** ** The monad *)

Lemma bind_ret {A B} (a : A) (k : A → M B) : (ret a ≫= k) = k a.
Proof. unfold mbind, M_bind, bind, ret. by destruct (k a). Qed.

Lemma bind_trace_ok {A B} (t : list Event) (a : A) (k : A → M B) :
  (((t, Ok a) : M A) ≫= k) = (t ++ trace (k a), outcome (k a)).
Proof. unfold mbind, M_bind, bind. by destruct (k a). Qed.

(** ** Paths *)

Lemma ancestors_spec (q p : Path) :
  q ∈ pathlib.ancestors p ↔ descendant q p.
Proof.
  revert q. induction p as [|c p IH]; intros q; simpl.
  - split.
    + intros H. inversion H.
    + intros (rest & Hne & Heq). symmetry in Heq.
      apply app_eq_nil in Heq as [_ ->]. done.
  - rewrite elem_of_cons, list_elem_of_fmap. split.
    + intros [-> | (q' & -> & Hin)].
      * exists (c :: p). done.
      * apply IH in Hin as (rest & Hne & ->). exists rest. done.
    + intros (rest & Hne & Heq). destruct q as [|c' q'].
      * by left.
      * right. simpl in Heq. injection Heq as <- ->.
        exists q'. split; [done|]. apply IH. by exists rest.
Qed.

Lemma parents_spec (q p : Path) :
  q ∈ pathlib.parents p ↔ descendant q p.
Proof. unfold pathlib.parents. by rewrite elem_of_reverse, ancestors_spec. Qed.

Lemma div_file (root : Path) (file : string) :
  pathlib.is_absolute file = false →
  root // file = root ++ pathlib.parse_parts file.
Proof. intros H. unfold pathlib.div. by rewrite H. Qed.

Lemma descendant_div (root : Path) (file : string) :
  pathlib.is_absolute file = false →
  pathlib.parse_parts file ≠ [] →
  descendant root (root // file).
Proof.
  intros Habs Hne. rewrite div_file by done. by eexists.
Qed.

Lemma name_div (root : Path) (file : string) :
  pathlib.parse_parts file = [file] →
  pathlib.is_absolute file = false →
  pathlib.name (root // file) = file.
Proof.
  intros Hparts Habs. rewrite div_file, Hparts by done.
  unfold pathlib.name. by rewrite last_last.
Qed.

Lemma name_error_page (env : Env) :
  pathlib.name (error_page env) = "error.html".
Proof. by apply name_div. Qed.

(** What is left of a path after [lstrip("/")] is never absolute, so the
    candidate is always built by appending to the static root. *)
Lemma lstrip_not_absolute (s : string) :
  pathlib.is_absolute (lstrip "/" s) = false.
Proof.
  induction s as [|a s IH]; [done|]. simpl.
  destruct (Ascii.eqb a "/") eqn:Ha; [done|].
  simpl. destruct a as [[] [] [] [] [] [] [] []]; try done.
Qed.

Lemma candidate_of_appends (env : Env) (route_path : string) :
  candidate_of env route_path =
    STATIC_DIR env ++ pathlib.parse_parts (lstrip "/" route_path).
Proof. apply div_file, lstrip_not_absolute. Qed.

(** ** The router *)

Lemma literal_route_cases (route_path : string) :
  str_in route_path literal_routes = true →
  route_path ∈ literal_routes.
Proof.
  unfold str_in. rewrite existsb_exists.
  intros (x & Hin & Heq). apply String.eqb_eq in Heq as ->.
  by apply list_elem_of_In.
Qed.

(** The fallback of [file_path_for_route], written out by what the file
    system answers: only an [OSError] is turned into the error page. *)
Lemma file_path_for_route_fallback (env : Env) (route_path : string) :
  str_in route_path literal_routes = false →
  file_path_for_route env route_path =
    match resolve env (candidate_of env route_path) with
    | Ok q =>
        ret (if bool_decide (STATIC_DIR env ∈ pathlib.parents q)
             then match is_file env q with
                  | Some true => q
                  | _ => error_page env
                  end
             else error_page env)
    | Raise e =>
        if bool_decide (e = OSError) then ret (error_page env) else raise e
    end.
Proof.
  intros Hlit.
  unfold file_path_for_route, literal_routes, str_in, candidate_of in *.
  simpl in Hlit. repeat (apply orb_false_elim in Hlit as [? Hlit]).
  simpl. repeat match goal with H : String.eqb _ _ = false |- _ =>
                  rewrite H; clear H end.
  simpl. destruct (resolve env _) as [q|e]; simpl.
  - destruct (bool_decide _); simpl; [|done].
    destruct (is_file env q) as [[|]|]; done.
  - by destruct (bool_decide (e = OSError)).
Qed.

(** C1, as the code has it: whenever canonicalization returns or fails
    with an OS error, the router returns a location strictly below the
    static root, whatever traversal segments the path holds.  For a path
    outside the literal route table the location is the error page, or the
    canonical form of the candidate, which [is_file] confirmed to be a
    regular file; a literal route gets its fixed file without any look at
    the disk. *)
Theorem file_path_for_route_inside (env : Env) (route_path : string) :
  (∀ e, resolve env (candidate_of env route_path) = Raise e → e = OSError) →
  ∃ p, file_path_for_route env route_path = ret p ∧
       descendant (STATIC_DIR env) p ∧
       (str_in route_path literal_routes = false →
        p = error_page env ∨
        (resolve env (candidate_of env route_path) = Ok p ∧
         is_file env p = Some true)) ∧
       (str_in route_path literal_routes = true →
        p ∈ (λ file, STATIC_DIR env // file) <$>
              ["index.html"; "message.html"; "error.html"; "style.css";
               "logo.png"]).
Proof.
  intros Hos.
  assert (Herr : descendant (STATIC_DIR env) (error_page env))
    by (by apply descendant_div).
  destruct (str_in route_path literal_routes) eqn:Hlit.
  - apply literal_route_cases in Hlit. unfold literal_routes in Hlit.
    repeat (apply elem_of_cons in Hlit as [-> | Hlit]);
      try (by apply elem_of_nil in Hlit);
      (eexists; split; [reflexivity|];
       split; [by apply descendant_div|];
       split; [done|]; intros _; set_solver).
  - rewrite file_path_for_route_fallback by done.
    destruct (resolve env _) as [q|e] eqn:Hq.
    + eexists; split; [reflexivity|].
      destruct (bool_decide _) eqn:Hin;
        [|by split_and!; [| left |]].
      apply bool_decide_eq_true in Hin. apply parents_spec in Hin.
      destruct (is_file env q) as [[|]|] eqn:Hfile;
        by split_and!; [| first [by right | by left] |].
    + rewrite (Hos e eq_refl). simpl.
      eexists; split; [reflexivity|]. by split_and!; [| left |].
Qed.

(** A traversal out of the root ends on the error page, although the file
    it aims at exists. *)
Lemma file_path_for_route_inside_witness :
  (∀ e, resolve env0 (candidate_of env0 "/../secret") = Raise e →
        e = OSError) ∧
  read_bytes env0 ["srv"; "app"; "secret"] = Some (b "s3cr3t") ∧
  resolve env0 (candidate_of env0 "/../secret") = Ok ["srv"; "app"; "secret"] ∧
  file_path_for_route env0 "/../secret" = ret (error_page env0).
Proof.
  assert (Hos : ∀ e, resolve env0 (candidate_of env0 "/../secret") = Raise e →
                     e = OSError) by (intros e He; vm_compute in He; done).
  split; [exact Hos|]. split; [reflexivity|]. split; [reflexivity|].
  destruct (file_path_for_route_inside env0 "/../secret" Hos)
    as (p & Hp & _).
  rewrite Hp. vm_compute in Hp. by injection Hp as <-.
Defined.

(** C1 as worded fails on a literal route: on the example site, which has
    no index.html, the router still answers [/] with that location; it is
    no existing file and it is not the error page. *)
Lemma literal_route_not_checked :
  ¬ existing_file_or_error_page env0 "/".
Proof.
  intros (p & Hp & H). injection Hp as <-.
  destruct H as [[_ Hfile] | Herr].
  - vm_compute in Hfile. discriminate.
  - vm_compute in Herr. discriminate.
Qed.

(** An exception of [resolve] that is no [OSError] leaves the router. *)
Lemma file_path_for_route_lets_through (env : Env) (route_path : string)
  (e : exn) :
  str_in route_path literal_routes = false →
  resolve env (candidate_of env route_path) = Raise e →
  e ≠ OSError →
  file_path_for_route env route_path = raise e.
Proof.
  intros Hlit He Hne. rewrite file_path_for_route_fallback, He by done.
  by rewrite bool_decide_eq_false_2.
Qed.

(** More traversals, and a path with a NUL in it. *)
Example traversal_examples :
  file_path_for_route env0 "/sub/../../secret" = ret (error_page env0) ∧
  file_path_for_route env0 "/..%2fsecret" = ret (error_page env0) ∧
  file_path_for_route env0 "//../../srv/app/secret" = ret (error_page env0) ∧
  file_path_for_route env0 "/sub/../style.css"
    = ret ["srv"; "app"; "front-init"; "style.css"] ∧
  file_path_for_route env0 (String "/" (String "000" "x"))
    = raise ValueError.
Proof. vm_compute. done. Qed.

(** ** Serving a file *)

Lemma serve_file_read (env : Env) (p : Path) (status : Z) (data : bytes) :
  read_bytes env p = Some data →
  _serve_file env p status
    = (respond status (content_type_of env p) data, Ok tt).
Proof. intros H. unfold _serve_file. by rewrite H. Qed.

Lemma serve_file_unreadable (env : Env) (p : Path) (status : Z) :
  read_bytes env p = None →
  _serve_file env p status = (respond_500 p, Ok tt).
Proof. intros H. unfold _serve_file. by rewrite H. Qed.

(** ** GET *)

(** [do_GET], by the name of what the router returned: the literal routes
    that [do_GET] serves itself never resolve to an error.html. *)
Lemma do_GET_by_name (env : Env) (req : Request) (p : Path) :
  file_path_for_route env (path req) = ret p →
  do_GET env req =
    if String.eqb (pathlib.name p) "error.html" then _serve_404 env
    else _serve_file env p 200.
Proof.
  intros Hp. unfold do_GET, _serve_path.
  destruct (str_in (path req) _) eqn:Hlit.
  - rewrite Hp, bind_ret.
    unfold str_in in Hlit. apply existsb_exists in Hlit as (x & Hin & Heq).
    apply String.eqb_eq in Heq. rewrite Heq in Hp.
    assert (Hname : String.eqb (pathlib.name p) "error.html" = false);
      [|by rewrite Hname].
    simpl in Hin.
    repeat (destruct Hin as [<- | Hin]); try done;
      injection Hp as <-; by rewrite name_div.
  - by rewrite Hp, bind_ret.
Qed.

(** C2, as the code has it: [do_GET] tells the error page by the file name
    of what the router returned.  When that name is error.html, which
    covers every fall-through of the router, the answer is 404 with the
    bytes and the guessed content type of the error page; when it is any
    other name the answer is 200 with the bytes and the guessed content
    type of the resolved file.  (Both for a file whose bytes can be read.) *)
Theorem do_GET_answers_by_name (env : Env) (req : Request) (p : Path) :
  file_path_for_route env (path req) = ret p →
  (p = error_page env → pathlib.name p = "error.html") ∧
  (pathlib.name p = "error.html" →
   ∀ data, read_bytes env (error_page env) = Some data →
           do_GET env req
             = (respond 404 (content_type_of env (error_page env)) data,
                Ok tt)) ∧
  (pathlib.name p ≠ "error.html" →
   ∀ data, read_bytes env p = Some data →
           do_GET env req
             = (respond 200 (content_type_of env p) data, Ok tt)).
Proof.
  intros Hp. rewrite (do_GET_by_name env req p Hp).
  split_and!.
  - intros ->. apply name_error_page.
  - intros -> data Hdata. simpl. unfold _serve_404.
    by apply serve_file_read.
  - intros Hname data Hdata.
    apply String.eqb_neq in Hname. rewrite Hname.
    by apply serve_file_read.
Qed.

(** A known asset and a path that does not exist, on the example site. *)
Lemma do_GET_answers_by_name_witness :
  file_path_for_route env0 (path (get "/style.css"))
    = ret ["srv"; "app"; "front-init"; "style.css"] ∧
  do_GET env0 (get "/style.css")
    = (respond 200 "text/css" (b "body{}"), Ok tt) ∧
  file_path_for_route env0 (path (get "/nope")) = ret (error_page env0) ∧
  do_GET env0 (get "/nope")
    = (respond 404 "text/html" (b "<h1>404</h1>"), Ok tt).
Proof.
  pose proof (do_GET_answers_by_name env0 (get "/style.css") _ eq_refl)
    as (_ & _ & Hasset).
  pose proof (do_GET_answers_by_name env0 (get "/nope") _ eq_refl)
    as (_ & Hmissing & _).
  split; [reflexivity|].
  split; [exact (Hasset ltac:(by vm_compute) (b "body{}") eq_refl)|].
  split; [reflexivity|].
  exact (Hmissing eq_refl (b "<h1>404</h1>") eq_refl).
Defined.

(** C2 as worded fails on the example site: /sub/error.html resolves to an
    existing, readable file that is not the error page, and the answer is
    404 with the error page instead of 200 with the file. *)
Lemma nested_error_html_not_served :
  ¬ answers_by_location env0 (get "/sub/error.html").
Proof.
  intros (p & Hp & H). injection Hp as <-.
  rewrite bool_decide_eq_false_2 in H by (vm_compute; discriminate).
  destruct H as (data & _ & Hget). vm_compute in Hget. discriminate.
Qed.

(** C8, as the code has it: when the router returned a location whose file
    name is not error.html and the bytes of that file cannot be read, the
    answer is 500 with no header and no body, and the failure is logged;
    it is not the 404 answer. *)
Theorem do_GET_unreadable (env : Env) (req : Request) (p : Path) :
  file_path_for_route env (path req) = ret p →
  pathlib.name p ≠ "error.html" →
  read_bytes env p = None →
  do_GET env req = (respond_500 p, Ok tt) ∧
  status_of (trace (do_GET env req)) = Some 500%Z ∧
  body_of (trace (do_GET env req)) = [] ∧
  ∀ content_type data,
    response_of (trace (do_GET env req)) ≠ respond 404 content_type data.
Proof.
  intros Hp Hname Hread.
  rewrite (do_GET_by_name env req p Hp).
  apply String.eqb_neq in Hname. rewrite Hname.
  rewrite serve_file_unreadable by done. by split_and!.
Qed.

(** The file nobody may read, on the example site. *)
Lemma do_GET_unreadable_witness :
  file_path_for_route env0 (path (get "/locked.txt"))
    = ret ["srv"; "app"; "front-init"; "locked.txt"] ∧
  pathlib.name ["srv"; "app"; "front-init"; "locked.txt"] ≠ "error.html" ∧
  is_file env0 ["srv"; "app"; "front-init"; "locked.txt"] = Some true ∧
  read_bytes env0 ["srv"; "app"; "front-init"; "locked.txt"] = None ∧
  response_of (trace (do_GET env0 (get "/locked.txt")))
    = [SendResponse 500; EndHeaders].
Proof.
  assert (Hname : pathlib.name ["srv"; "app"; "front-init"; "locked.txt"]
                  ≠ "error.html") by (by vm_compute).
  split; [reflexivity|]. split; [exact Hname|].
  split; [reflexivity|]. split; [reflexivity|].
  destruct (do_GET_unreadable env0 (get "/locked.txt") _
              eq_refl Hname eq_refl) as (Hget & _).
  by rewrite Hget.
Defined.

(** C8 as worded fails when the unreadable file is itself called
    error.html: with the nested error.html unreadable, the handler reads
    the error page instead and answers 404 with its body. *)
Lemma unreadable_nested_error_html :
  ¬ unreadable_is_500 env1 (get "/sub/error.html").
Proof.
  intros H.
  destruct (H ["srv"; "app"; "front-init"; "sub"; "error.html"])
    as [Hstatus _]; [done | by vm_compute | done |].
  vm_compute in Hstatus. discriminate.
Qed.

(** C9, as the code has it: a GET of /error.html, and any GET for which
    the router returned a location named error.html, is answered by
    [_serve_404], also when the location is an existing file of that name
    elsewhere under the static root: never with status 200; with status
    404 and the body of the error page when that page can be read; with
    status 500 and no body when it cannot. *)
Theorem do_GET_error_html (env : Env) (req : Request) :
  (path req = "/error.html" ∨
   ∃ p, file_path_for_route env (path req) = ret p ∧
        pathlib.name p = "error.html") →
  do_GET env req = _serve_404 env ∧
  status_of (trace (do_GET env req)) ≠ Some 200%Z ∧
  (∀ data, read_bytes env (error_page env) = Some data →
           do_GET env req
             = (respond 404 (content_type_of env (error_page env)) data,
                Ok tt) ∧
           answers_404_with_error_page env req) ∧
  (read_bytes env (error_page env) = None →
   do_GET env req = (respond_500 (error_page env), Ok tt) ∧
   status_of (trace (do_GET env req)) = Some 500%Z ∧
   body_of (trace (do_GET env req)) = []).
Proof.
  intros H.
  assert (∃ p, file_path_for_route env (path req) = ret p ∧
               pathlib.name p = "error.html") as (p & Hp & Hname).
  { destruct H as [Hpath | H]; [|done].
    exists (error_page env). rewrite Hpath. split; [done|].
    apply name_error_page. }
  unfold answers_404_with_error_page.
  rewrite (do_GET_by_name env req p Hp), Hname. simpl. unfold _serve_404.
  fold (error_page env).
  split_and!; [done | | |].
  - destruct (read_bytes env (error_page env)) as [data|] eqn:Hread.
    + by rewrite (serve_file_read _ _ _ data).
    + by rewrite serve_file_unreadable.
  - intros data Hdata. rewrite (serve_file_read _ _ _ data) by done.
    split_and!; [done | done |]. rewrite Hdata. cbn. by rewrite app_nil_r.
  - intros Hread. by rewrite serve_file_unreadable.
Qed.

(** The nested error.html of the example site is such a request, and so
    is /error.html itself. *)
Lemma do_GET_error_html_witness :
  (path (get "/sub/error.html") = "/error.html" ∨
   ∃ p, file_path_for_route env0 (path (get "/sub/error.html")) = ret p ∧
        pathlib.name p = "error.html") ∧
  is_file env0 ["srv"; "app"; "front-init"; "sub"; "error.html"]
    = Some true ∧
  do_GET env0 (get "/sub/error.html")
    = (respond 404 "text/html" (b "<h1>404</h1>"), Ok tt) ∧
  do_GET env0 (get "/error.html")
    = (respond 404 "text/html" (b "<h1>404</h1>"), Ok tt).
Proof.
  assert (H : path (get "/sub/error.html") = "/error.html" ∨
              ∃ p, file_path_for_route env0 (path (get "/sub/error.html"))
                     = ret p ∧ pathlib.name p = "error.html").
  { right. eexists. split; [vm_compute; reflexivity | reflexivity]. }
  split; [exact H|]. split; [reflexivity|].
  destruct (do_GET_error_html env0 (get "/sub/error.html") H)
    as (_ & _ & Hnested & _).
  destruct (do_GET_error_html env0 (get "/error.html") (or_introl eq_refl))
    as (_ & _ & Hitself & _).
  split; [exact (proj1 (Hnested (b "<h1>404</h1>") eq_refl))|].
  exact (proj1 (Hitself (b "<h1>404</h1>") eq_refl)).
Defined.

(** C9 as worded fails when the error page itself cannot be read: a GET
    of /error.html is then answered with status 500 and no body. *)
Lemma unreadable_error_page_is_500 :
  let req := get "/error.html" in
  read_bytes env3 (error_page env3) = None ∧
  do_GET env3 req = (respond_500 (error_page env3), Ok tt) ∧
  status_of (trace (do_GET env3 req)) = Some 500%Z ∧
  body_of (trace (do_GET env3 req)) = [] ∧
  ¬ answers_404_with_error_page env3 req.
Proof.
  intros req. split_and!; [reflexivity.. |].
  intros [Hstatus _]. vm_compute in Hstatus. discriminate.
Qed.

(** ** POST and the relay *)

(** [send_udp] by what the network answers: it ends normally either way. *)
Lemma send_udp_cases (env : Env) (payload : bytes) :
  send_udp env payload =
    (match sendto env payload with
     | Some _ => [Sendto payload]
     | None => [LogException "failed to send udp message"]
     end, Ok tt).
Proof.
  unfold send_udp, socket_sendto.
  by destruct (sendto env payload) as [[]|].
Qed.

(** The length as [do_POST] obtains it. *)
Lemma do_POST_length (env : Env) (req : Request) :
  try_except
    (call ValueError
       (int env (default "0" (headers_get req "Content-Length"))))
    [(Only ValueError, ret 0%Z)]
  = ret (content_length env req).
Proof. unfold content_length. by destruct (int env _). Qed.

(** Past the path test of [do_POST] and its reading of the length. *)
Ltac enter_do_POST Hpath :=
  unfold do_POST; rewrite Hpath;
  change (negb ("/message" =? "/message")%string) with false; cbv iota;
  rewrite do_POST_length, bind_ret.

(** [do_POST] on the submission path, for a length whose read is given
    its buffer: one call of [send_udp] on the first [content_length] bytes
    of the stream, then the redirect. *)
Lemma do_POST_message (env : Env) (req : Request) :
  path req = "/message" →
  (content_length env req ≤ maxsize env)%Z →
  do_POST env req =
    (send_udp env (take (Z.to_nat (content_length env req)) (rfile req));;
     (redirect, Ok tt)).
Proof.
  intros Hpath Hmax. enter_do_POST Hpath.
  destruct (0 <? content_length env req)%Z eqn:Hpos.
  - unfold rfile_read.
    apply Z.ltb_ge in Hmax. rewrite Hmax. by rewrite bind_ret.
  - apply Z.ltb_ge in Hpos.
    by rewrite bind_ret, Z2Nat.nonpos.
Qed.

(** A length whose read is not given its buffer makes the read raise;
    [do_POST] has no handler for it, calls no relay and sends no
    response. *)
Lemma do_POST_overflow (env : Env) (req : Request) :
  path req = "/message" →
  (0 < content_length env req)%Z →
  (maxsize env < content_length env req)%Z →
  do_POST env req = raise (read_refusal (content_length env req)).
Proof.
  intros Hpath Hpos Hmax. enter_do_POST Hpath.
  apply Z.ltb_lt in Hpos. rewrite Hpos. unfold rfile_read.
  apply Z.ltb_lt in Hmax. by rewrite Hmax.
Qed.

(** C3 on the code: a POST to /message that announces 2^63 bytes gets no
    redirect.  [int] accepts the number, the read raises [OverflowError],
    and the exception leaves [do_POST] before the relay is called and
    before any response is sent. *)
Theorem do_POST_huge_length_no_redirect :
  let req := post "/message" (Some "9223372036854775808")
                  (b "username=alice&message=hi") in
  path req = "/message" ∧
  content_length env0 req = 9223372036854775808%Z ∧
  do_POST env0 req = raise OverflowError ∧
  ¬ answers_with_redirect env0 req.
Proof.
  intros req.
  assert (Hpost : do_POST env0 req = raise OverflowError)
    by (by rewrite do_POST_overflow).
  split_and!; [done | done | done |].
  intros [Hout _]. rewrite Hpost in Hout. discriminate.
Qed.

(** X1: the redirect does not depend on the relay.  When the read of the
    body is given its buffer and does not wait for ever (the length is
    zero or less, or the client sends that many bytes or closes its side),
    a POST to /message ends normally and sends the client the redirect to
    / and nothing else, whether the datagram left or not; [send_udp] never
    raises, and what a failed send leaves behind is one log record. *)
Theorem do_POST_redirects (env : Env) (req : Request) :
  path req = "/message" →
  (content_length env req ≤ maxsize env)%Z →
  rfile_read_waits req (content_length env req) = false →
  answers_with_redirect env req ∧
  ∀ payload,
    outcome (send_udp env payload) = Ok tt ∧
    (sendto env payload = None →
     trace (send_udp env payload)
       = [LogException "failed to send udp message"]) ∧
    (sendto env payload = Some tt →
     trace (send_udp env payload) = [Sendto payload]).
Proof.
  intros Hpath Hmax _. unfold answers_with_redirect.
  rewrite do_POST_message by done.
  split_and!.
  - rewrite send_udp_cases. done.
  - rewrite send_udp_cases. by destruct (sendto env _).
  - intros payload. rewrite send_udp_cases.
    split_and!; [done | by intros -> | by intros ->].
Qed.

(** With the network down the answer is the redirect all the same, here
    for a browser that sends the two bytes it announced and keeps the
    connection open. *)
Lemma do_POST_redirects_witness :
  let req := post_open "/message" (Some "2") (b "hi") in
  path req = "/message" ∧
  (content_length env2 req ≤ maxsize env2)%Z ∧
  rfile_read_waits req (content_length env2 req) = false ∧
  sendto env2 (b "hi") = None ∧
  do_POST env2 req
    = (LogException "failed to send udp message" :: redirect, Ok tt) ∧
  answers_with_redirect env2 req.
Proof.
  intros req.
  assert (Hmax : (content_length env2 req ≤ maxsize env2)%Z)
    by (by vm_compute).
  split; [reflexivity|]. split; [exact Hmax|]. split; [reflexivity|].
  split; [reflexivity|]. split; [reflexivity|].
  exact (proj1 (do_POST_redirects env2 req eq_refl Hmax eq_refl)).
Defined.




(** The read on the example site, which gives a buffer of 4 GiB at most:
    a length of [sys.maxsize] is refused with [OverflowError] and one of
    2^62 with [MemoryError], whatever the client sends; and a browser that
    announces ten bytes, sends three and keeps the connection open leaves
    the handler waiting. *)
Lemma read_examples :
  do_POST env0 (post "/message" (Some "9223372036854775807") (b "abc"))
    = raise OverflowError ∧
  do_POST env0 (post "/message" (Some "4611686018427387904") (b "abc"))
    = raise MemoryError ∧
  rfile_read_waits (post_open "/message" (Some "10") (b "abc"))
    (content_length env0 (post_open "/message" (Some "10") (b "abc")))
    = true.
Proof.
  split_and!; [by rewrite do_POST_overflow.. | reflexivity].
Qed.

(** ** The codec *)

Lemma utf8_step_positive (bs : bytes) :
  bs ≠ [] →
  match codecs.utf8_step bs with
  | codecs.Char k | codecs.Bad k => (1 ≤ k)%nat
  end.
Proof.
  destruct bs as [|lead rest]; [done|]. intros _.
  unfold codecs.utf8_step. repeat case_match; simplify_eq; lia.
Qed.

(** The fuel [decode] gives is enough: more of it changes nothing. *)
Lemma decode_loop_enough (e : codecs.errors) (n m : nat) (bs : bytes) :
  (length bs ≤ n)%nat → (length bs ≤ m)%nat →
  codecs.decode_loop n e bs = codecs.decode_loop m e bs.
Proof.
  revert m bs. induction n as [|n IH]; intros m bs Hn Hm.
  - destruct bs; [|simpl in Hn; lia]. by destruct m.
  - destruct bs as [|x bs]; [by destruct m|].
    destruct m as [|m]; [simpl in Hm; lia|].
    pose proof (utf8_step_positive (x :: bs)) as Hpos.
    cbn [codecs.decode_loop].
    assert (Hdrop : ∀ k, (1 ≤ k → length (drop k (x :: bs)) ≤ length bs)%nat).
    { intros k Hk. rewrite length_drop. simpl. lia. }
    simpl in Hn, Hm.
    destruct (codecs.utf8_step (x :: bs)) as [k|k];
      specialize (Hpos ltac:(done));
      rewrite (IH m (drop k (x :: bs))) by (specialize (Hdrop k Hpos); lia);
      done.
Qed.

(** With [errors="ignore"] the decoder only removes bytes: the text is a
    subsequence of the input. *)
Lemma decode_loop_ignore_sublist (n : nat) (bs : bytes) :
  codecs.decode_loop n codecs.ignore bs `sublist_of` bs.
Proof.
  revert bs. induction n as [|n IH]; intros bs; [apply sublist_nil_l|].
  destruct bs as [|x bs]; [done|]. cbn [codecs.decode_loop].
  destruct (codecs.utf8_step (x :: bs)) as [k|k].
  - rewrite <- (take_drop k (x :: bs)) at 3. by apply sublist_app.
  - etrans; [apply IH | apply sublist_drop].
Qed.

(** ASCII text decodes to itself, under either error handler. *)
Lemma decode_ascii (e : codecs.errors) (bs : bytes) :
  Forall (λ x, (Byte.to_N x < 128)%N) bs →
  codecs.decode e bs = string_of_list_byte bs.
Proof.
  unfold codecs.decode. intros H. f_equal.
  induction H as [|x bs Hx _ IH]; [done|].
  cbn [length codecs.decode_loop codecs.utf8_step].
  apply N.ltb_lt in Hx. rewrite Hx. simpl. by rewrite drop_0, IH.
Qed.

(** ** Form fields *)

Lemma contains_list_byte (c : byte) (l : bytes) :
  urllib.contains (ascii_of_byte c) (string_of_list_byte l) = true → c ∈ l.
Proof.
  unfold urllib.contains, string_of_list_byte.
  rewrite list_ascii_of_string_of_list_ascii, existsb_exists.
  intros (a & Hin & Heq). apply Ascii.eqb_eq in Heq as <-.
  apply in_map_iff in Hin as (x & Hx & Hin).
  apply (f_equal byte_of_ascii) in Hx.
  rewrite !byte_of_ascii_of_byte in Hx. subst x. by apply list_elem_of_In.
Qed.

(** A character the payload does not hold is not in the decoded text. *)
Lemma decode_ignore_contains (c : byte) (payload : bytes) :
  c ∉ payload →
  urllib.contains (ascii_of_byte c) (codecs.decode codecs.ignore payload)
    = false.
Proof.
  intros Hc. apply not_true_is_false. intros H.
  apply contains_list_byte in H. apply Hc.
  eapply elem_of_sublist; [done|]. apply decode_loop_ignore_sublist.
Qed.

Lemma contains_cons (c a : ascii) (s : string) :
  urllib.contains c (String a s) = Ascii.eqb a c || urllib.contains c s.
Proof. unfold urllib.contains. simpl. by rewrite Ascii.eqb_sym. Qed.

Lemma split1_without (sep : ascii) (s : string) :
  urllib.contains sep s = false → urllib.split1 sep s = [s].
Proof.
  induction s as [|a s IH]; [done|].
  rewrite contains_cons. intros [Ha Hs]%orb_false_elim.
  simpl. by rewrite Ha, IH.
Qed.

Lemma split_contains (sep c : ascii) (s w : string) :
  w ∈ split sep s → urllib.contains c w = true →
  urllib.contains c s = true.
Proof.
  revert w. induction s as [|a s IH]; intros w.
  - simpl. by intros ->%list_elem_of_singleton.
  - simpl. rewrite contains_cons. destruct (Ascii.eqb a sep).
    + intros [-> | Hw]%elem_of_cons Hc; [done|].
      rewrite (IH w) by done. apply orb_true_r.
    + destruct (split sep s) as [|w0 ws].
      * intros ->%list_elem_of_singleton. rewrite contains_cons.
        intros [-> | Hc]%orb_true_iff; [done | discriminate].
      * intros [-> | Hw]%elem_of_cons.
        -- rewrite contains_cons. intros [-> | Hc]%orb_true_iff; [done|].
           rewrite (IH w0) by (by left || done). apply orb_true_r.
        -- intros Hc. rewrite (IH w) by (by right || done).
           apply orb_true_r.
Qed.

(** A field without ['='] adds no pair. *)
Lemma parse_field_without_eq (name_value : string) :
  urllib.contains "=" name_value = false →
  urllib.parse_field name_value = None.
Proof.
  intros H. unfold urllib.parse_field.
  rewrite split1_without by done. by destruct (String.eqb _ _).
Qed.

(** A field with a blank value adds no pair. *)
Lemma parse_field_blank (name : string) :
  urllib.contains "=" name = false →
  urllib.parse_field (name ++ "=") = None.
Proof.
  intros H. unfold urllib.parse_field.
  assert (Hsplit : urllib.split1 "=" (name ++ "=") = [name; ""]).
  { induction name as [|a name IH]; [done|].
    rewrite contains_cons in H. apply orb_false_elim in H as [Ha Hname].
    simpl. by rewrite Ha, IH. }
  rewrite Hsplit. by destruct (String.eqb _ _).
Qed.

Lemma omap_all_none {A B} (f : A → option B) (l : list A) :
  (∀ x, x ∈ l → f x = None) → omap f l = [].
Proof.
  induction l as [|x l IH]; [done|]. intros H. simpl.
  rewrite (H x) by left. apply IH. intros y Hy. apply H. by right.
Qed.

(** Text without ['='] has no pairs. *)
Lemma parse_qsl_without_eq (qs : string) :
  urllib.contains "=" qs = false → urllib.parse_qsl qs = [].
Proof.
  intros H. unfold urllib.parse_qsl.
  destruct (String.eqb qs ""); [done|].
  apply omap_all_none. intros w Hw. apply parse_field_without_eq.
  apply not_true_is_false. intros Hc.
  rewrite (split_contains "&" "=" qs w) in H by done. discriminate.
Qed.

Lemma values_of_cons (key name value : string)
  (pairs : list (string * string)) :
  values_of key ((name, value) :: pairs) =
    if String.eqb name key then value :: values_of key pairs
    else values_of key pairs.
Proof. unfold values_of. simpl. by destruct (String.eqb name key). Qed.

(** What [parse_qs] holds under a key: all its values in order, and no
    entry at all when there is none. *)
Lemma foldl_add_pair_lookup (pairs : list (string * string))
  (m : gmap string (list string)) (key : string) :
  foldl urllib.add_pair m pairs !! key =
    match values_of key pairs with
    | [] => m !! key
    | values => Some (default [] (m !! key) ++ values)%list
    end.
Proof.
  revert m. induction pairs as [|[name value] pairs IH]; intros m; [done|].
  cbn [foldl]. rewrite IH, values_of_cons. unfold urllib.add_pair.
  destruct (String.eqb name key) eqn:Hname.
  - apply String.eqb_eq in Hname as ->.
    destruct (m !! key) as [old|] eqn:Hold;
      rewrite lookup_insert_eq;
      destruct (values_of key pairs); simpl; by rewrite <- ?app_assoc.
  - apply String.eqb_neq in Hname.
    destruct (m !! name); by rewrite lookup_insert_ne.
Qed.

Lemma parse_qs_lookup (qs key : string) :
  urllib.parse_qs qs !! key =
    match values_of key (urllib.parse_qsl qs) with
    | [] => None
    | values => Some values
    end.
Proof.
  unfold urllib.parse_qs. rewrite foldl_add_pair_lookup, lookup_empty.
  by destruct (values_of _ _).
Qed.

(** No key of [parse_qs] holds an empty list. *)
Lemma parse_qs_nonempty (qs key : string) (values : list string) :
  urllib.parse_qs qs !! key = Some values → values ≠ [].
Proof.
  rewrite parse_qs_lookup. destruct (values_of _ _); naive_solver.
Qed.

(** [parse_form_bytes] ends normally, performs no effect, and extracts the
    fields as the ordered-candidates description says. *)
Lemma parse_form_bytes_first_present (payload : bytes) :
  parse_form_bytes payload =
    ret {[ "username" := first_present ["username"; "name"] (pairs_of payload);
           "message" := first_present ["message"] (pairs_of payload) ]}.
Proof.
  unfold parse_form_bytes, pairs_of. cbn [try_except ret].
  rewrite bind_ret. rewrite !parse_qs_lookup. cbn [first_present].
  destruct (values_of "username" _) as [|u us];
    destruct (values_of "name" _) as [|n ns];
    destruct (values_of "message" _) as [|m ms]; done.
Qed.

(** A stray byte outside ASCII, standing between ASCII text, is an error of
    one byte: [errors="ignore"] drops it and keeps the text around it. *)
Lemma decode_loop_stray_byte (n : nat) (before after : bytes) (x : byte) :
  Forall (λ y, (Byte.to_N y < 128)%N) before →
  Forall (λ y, (Byte.to_N y < 128)%N) after →
  (128 ≤ Byte.to_N x)%N →
  (length (before ++ x :: after) ≤ n)%nat →
  codecs.decode_loop n codecs.ignore (before ++ x :: after)
    = (before ++ after)%list.
Proof.
  intros Hbefore Hafter Hx. revert n.
  induction Hbefore as [|y before Hy _ IH]; intros n Hn.
  - destruct n as [|n]; [simpl in Hn; lia|]. simpl in Hn.
    assert (Hstep : codecs.utf8_step (x :: after) = codecs.Bad 1).
    { unfold codecs.utf8_step.
      apply N.ltb_ge in Hx. rewrite Hx.
      assert (Hcont : ∀ y, (Byte.to_N y < 128)%N →
                           codecs.continuation y = false).
      { intros y Hy. unfold codecs.continuation, codecs.between.
        apply andb_false_intro1. apply N.leb_gt. lia. }
      assert (Hsecond : ∀ y, (Byte.to_N y < 128)%N →
                             codecs.second x y = false).
      { intros y Hy. unfold codecs.second, codecs.between.
        specialize (Hcont y Hy).
        repeat case_match; try done;
          apply andb_false_intro1; apply N.leb_gt; lia. }
      destruct Hafter as [|y1 after Hy1 Hafter];
        [by repeat case_match|].
      rewrite (Hcont y1), (Hsecond y1) by done.
      destruct Hafter as [|y2 after Hy2 Hafter];
        [by repeat case_match|].
      destruct Hafter as [|y3 after Hy3 Hafter]; by repeat case_match. }
    cbn [app codecs.decode_loop]. rewrite Hstep. cbn [drop].
    rewrite drop_0.
    rewrite (decode_loop_enough _ n (length after)) by lia.
    assert (H := decode_ascii codecs.ignore after Hafter).
    unfold codecs.decode in H.
    apply (f_equal list_byte_of_string) in H.
    by rewrite !list_byte_of_string_of_list_byte in H.
  - destruct n as [|n]; [simpl in Hn; lia|]. simpl in Hn.
    cbn [app codecs.decode_loop codecs.utf8_step].
    apply N.ltb_lt in Hy. rewrite Hy. cbn [take drop].
    rewrite drop_0, take_0. simpl. f_equal. apply IH. lia.
Qed.

Lemma decode_ignore_stray_byte (before after : bytes) (x : byte) :
  Forall (λ y, (Byte.to_N y < 128)%N) before →
  Forall (λ y, (Byte.to_N y < 128)%N) after →
  (128 ≤ Byte.to_N x)%N →
  codecs.decode codecs.ignore (before ++ x :: after)
    = codecs.decode codecs.ignore (before ++ after).
Proof.
  intros Hbefore Hafter Hx. unfold codecs.decode at 1.
  rewrite decode_loop_stray_byte by done.
  symmetry. apply decode_ascii. by apply Forall_app.
Qed.

(** ** Parsing a datagram *)

(** C5: for every payload [parse_form_bytes] ends normally and without an
    effect, with a dict that holds both fields.  Decoding never fails: it
    runs to the end of the input (no amount of further fuel changes the
    text), it only removes bytes, and a stray byte outside ASCII in ASCII
    text is removed without a trace in the result.  A payload that is no
    form (it has no ['=']) gives the empty string for both fields. *)
Theorem parse_form_bytes_total (payload : bytes) :
  (∃ d, parse_form_bytes payload = ret d ∧
        is_Some (d !! "username") ∧ is_Some (d !! "message")) ∧
  (∀ more,
     codecs.decode_loop (length payload + more) codecs.ignore payload
       = list_byte_of_string (codecs.decode codecs.ignore payload)) ∧
  list_byte_of_string (codecs.decode codecs.ignore payload)
    `sublist_of` payload ∧
  (∀ before after x,
     payload = before ++ x :: after →
     Forall (λ y, (Byte.to_N y < 128)%N) before →
     Forall (λ y, (Byte.to_N y < 128)%N) after →
     (128 ≤ Byte.to_N x)%N →
     parse_form_bytes payload = parse_form_bytes (before ++ after)) ∧
  ("="%byte ∉ payload →
   parse_form_bytes payload = ret {[ "username" := ""; "message" := "" ]}).
Proof.
  split_and!.
  - rewrite parse_form_bytes_first_present. eexists. split; [done|].
    split; by eexists.
  - intros more. unfold codecs.decode.
    rewrite list_byte_of_string_of_list_byte.
    apply decode_loop_enough; lia.
  - unfold codecs.decode. rewrite list_byte_of_string_of_list_byte.
    apply decode_loop_ignore_sublist.
  - intros before after x -> Hbefore Hafter Hx.
    unfold parse_form_bytes. by rewrite decode_ignore_stray_byte.
  - intros Hno. rewrite parse_form_bytes_first_present.
    unfold pairs_of.
    by rewrite parse_qsl_without_eq
      by apply (decode_ignore_contains "="%byte), Hno.
Qed.

(** C6: the username extracted is the value of the username field, the
    value of the name field when there is no username field, and the empty
    string when there is neither; the message is the value of the message
    field, or the empty string.  The dict returned always holds both
    keys. *)
Theorem parse_form_bytes_fields (payload : bytes) :
  let data := urllib.parse_qs (codecs.decode codecs.ignore payload) in
  ∃ d username message,
    parse_form_bytes payload = ret d ∧
    d !! "username" = Some username ∧
    d !! "message" = Some message ∧
    (∀ values, data !! "username" = Some values →
               head values = Some username) ∧
    (data !! "username" = None →
     ∀ values, data !! "name" = Some values → head values = Some username) ∧
    (data !! "username" = None → data !! "name" = None → username = "") ∧
    (∀ values, data !! "message" = Some values →
               head values = Some message) ∧
    (data !! "message" = None → message = "").
Proof.
  intros data. subst data.
  rewrite parse_form_bytes_first_present. unfold pairs_of.
  rewrite !parse_qs_lookup. cbn [first_present].
  do 3 eexists. split; [reflexivity|].
  split; [by rewrite lookup_insert_eq|].
  split; [by rewrite lookup_insert_ne, lookup_singleton_eq|].
  destruct (values_of "username" _) as [|u us];
    destruct (values_of "name" _) as [|n ns];
    destruct (values_of "message" _) as [|m ms];
    split_and!; naive_solver.
Qed.

Lemma parse_qsl_split (qs : string) :
  urllib.parse_qsl qs = omap urllib.parse_field (split "&" qs).
Proof.
  unfold urllib.parse_qsl.
  destruct (String.eqb qs "") eqn:Hqs; [|done].
  by apply String.eqb_eq in Hqs as ->.
Qed.

Lemma split_nonempty (sep : ascii) (s : string) : split sep s ≠ [].
Proof.
  destruct s as [|a s]; [done|]. simpl.
  destruct (Ascii.eqb a sep); [done|]. by destruct (split sep s).
Qed.

Lemma split_app (sep : ascii) (s1 s2 : string) :
  split sep (s1 ++ String sep s2) = split sep s1 ++ split sep s2.
Proof.
  induction s1 as [|a s1 IH]; simpl.
  - by rewrite Ascii.eqb_refl.
  - destruct (Ascii.eqb a sep); [by rewrite IH|].
    rewrite IH. pose proof (split_nonempty sep s1).
    by destruct (split sep s1).
Qed.

(** The pairs of [s1 & s2] are those of [s1] followed by those of [s2]. *)
Lemma parse_qsl_app (s1 s2 : string) :
  urllib.parse_qsl (s1 ++ String "&" s2)
    = urllib.parse_qsl s1 ++ urllib.parse_qsl s2.
Proof. by rewrite !parse_qsl_split, split_app, omap_app. Qed.

(** C10: a field with a blank value is as good as absent.  The payload
    [username=&name=bob&message=] gives the username bob and the empty
    message; a field [name=] adds no pair, and in any text such a field
    between two ['&'] can be struck out without changing the pairs; and of
    the several values of a field the first one is extracted. *)
Theorem blank_fields_are_absent :
  parse_form_bytes (b "username=&name=bob&message=")
    = ret {[ "username" := "bob"; "message" := "" ]} ∧
  (∀ name, urllib.contains "=" name = false →
           urllib.parse_field (name ++ "=") = None) ∧
  (∀ s1 name s2,
     urllib.contains "=" name = false →
     urllib.contains "&" name = false →
     urllib.parse_qsl (s1 ++ "&" ++ name ++ "=&" ++ s2)
       = urllib.parse_qsl (s1 ++ "&" ++ s2)) ∧
  (∀ payload first others,
     urllib.parse_qs (codecs.decode codecs.ignore payload) !! "username"
       = Some (first :: others) →
     ∃ d, parse_form_bytes payload = ret d ∧ d !! "username" = Some first) ∧
  (∀ payload first others,
     urllib.parse_qs (codecs.decode codecs.ignore payload) !! "username"
       = None →
     urllib.parse_qs (codecs.decode codecs.ignore payload) !! "name"
       = Some (first :: others) →
     ∃ d, parse_form_bytes payload = ret d ∧ d !! "username" = Some first) ∧
  (∀ payload first others,
     urllib.parse_qs (codecs.decode codecs.ignore payload) !! "message"
       = Some (first :: others) →
     ∃ d, parse_form_bytes payload = ret d ∧ d !! "message" = Some first) ∧
  parse_form_bytes (b "message=first&message=second&name=n1&name=n2")
    = ret {[ "username" := "n1"; "message" := "first" ]}.
Proof.
  split_and!.
  - rewrite parse_form_bytes_first_present. by vm_compute.
  - apply parse_field_blank.
  - intros s1 name s2 Heq Hamp.
    change (s1 ++ "&" ++ name ++ "=&" ++ s2)%string
      with (s1 ++ String "&" (name ++ String "=" (String "&" s2)))%string.
    change (s1 ++ "&" ++ s2)%string with (s1 ++ String "&" s2)%string.
    assert (Hname : (name ++ String "=" (String "&" s2))%string
                    = ((name ++ "=") ++ String "&" s2)%string).
    { clear. induction name as [|a name IH]; [done|].
      change (String a (name ++ String "=" (String "&" s2))%string
              = String a ((name ++ "=") ++ String "&" s2)%string).
      by rewrite IH. }
    rewrite Hname, !parse_qsl_app.
    assert (Hblank : urllib.parse_qsl (name ++ "=") = []);
      [|by rewrite Hblank].
    rewrite parse_qsl_split.
    assert (Hsplit : split "&" (name ++ "=") = [(name ++ "=")%string]).
    { clear Heq Hname. induction name as [|a name IH]; [done|].
      rewrite contains_cons in Hamp.
      apply orb_false_elim in Hamp as [Ha Hamp].
      simpl. by rewrite Ha, IH. }
    rewrite Hsplit. simpl. by rewrite parse_field_blank.
  - intros payload first others Hdata.
    rewrite parse_form_bytes_first_present. eexists. split; [done|].
    rewrite parse_qs_lookup in Hdata. fold (pairs_of payload) in Hdata.
    rewrite lookup_insert_eq. cbn [first_present].
    destruct (values_of "username" _); naive_solver.
  - intros payload first others Hnone Hdata.
    rewrite parse_form_bytes_first_present. eexists. split; [done|].
    rewrite parse_qs_lookup in Hnone, Hdata.
    fold (pairs_of payload) in Hnone, Hdata.
    rewrite lookup_insert_eq. cbn [first_present].
    destruct (values_of "username" _); [|done].
    destruct (values_of "name" _); naive_solver.
  - intros payload first others Hdata.
    rewrite parse_form_bytes_first_present. eexists. split; [done|].
    rewrite parse_qs_lookup in Hdata. fold (pairs_of payload) in Hdata.
    rewrite lookup_insert_ne, lookup_singleton_eq by done.
    cbn [first_present].
    destruct (values_of "message" _); naive_solver.
  - rewrite parse_form_bytes_first_present. by vm_compute.
Qed.

(** ** The receive loop *)

(** One turn of the loop, by what the world answers. *)
Lemma serve_datagram_cases (a : Arrival) :
  serve_datagram a =
    (match recvfrom a with
     | None => [LogException "socket error"]
     | Some payload =>
         match insert_one a with
         | None => [LogException "mongodb error"]
         | Some _ =>
             [InsertOne (document_of a payload);
              LogInfo ("saved message for user: "
                       ++ username (document_of a payload))]
         end
     end, Ok tt).
Proof.
  unfold serve_datagram, collection_insert_one, document_of.
  destruct (recvfrom a) as [payload|]; [|done]. cbn [call].
  rewrite bind_ret, parse_form_bytes_first_present, bind_ret.
  rewrite lookup_insert_eq, lookup_insert_ne, lookup_singleton_eq by done.
  by destruct (insert_one a) as [[]|].
Qed.

(** No turn ends the loop: however the arrivals go, the loop reaches the
    next turn, and its effects are those of its turns in order. *)
Lemma run_socket_server_app (first rest : list Arrival) :
  run_socket_server (first ++ rest) =
    (trace (run_socket_server first) ++ trace (run_socket_server rest),
     Ok tt).
Proof.
  induction first as [|a first IH]; simpl.
  - destruct rest as [|a rest]; [done|]. simpl.
    rewrite serve_datagram_cases, bind_trace_ok.
    f_equal. clear. induction rest as [|a rest IH]; [done|]. simpl.
    by rewrite serve_datagram_cases, bind_trace_ok.
  - rewrite !serve_datagram_cases, !bind_trace_ok, IH. simpl.
    by rewrite app_assoc.
Qed.

Lemma stored_app (t1 t2 : list Event) :
  stored (t1 ++ t2) = stored t1 ++ stored t2.
Proof. apply omap_app. Qed.

(** C4: when [insert_one] fails for a datagram, the turn leaves one log
    record and no document (the datagram is not tried again), and the loop
    goes on: the next datagram whose insert succeeds is parsed and stored,
    and what was stored before and what is stored after is untouched. *)
Theorem insert_failure_is_survived (before after : list Arrival)
  (failed next : Arrival) (payload1 payload2 : bytes) :
  recvfrom failed = Some payload1 →
  insert_one failed = None →
  recvfrom next = Some payload2 →
  insert_one next = Some tt →
  let run := run_socket_server (before ++ failed :: next :: after) in
  serve_datagram failed = ([LogException "mongodb error"], Ok tt) ∧
  outcome run = Ok tt ∧
  trace run =
    trace (run_socket_server before)
    ++ [LogException "mongodb error"]
    ++ [InsertOne (document_of next payload2);
        LogInfo ("saved message for user: "
                 ++ username (document_of next payload2))]
    ++ trace (run_socket_server after) ∧
  stored (trace run) =
    stored (trace (run_socket_server before))
    ++ document_of next payload2
    :: stored (trace (run_socket_server after)).
Proof.
  intros Hrecv1 Hins1 Hrecv2 Hins2 run.
  assert (Hfailed : serve_datagram failed
                    = ([LogException "mongodb error"], Ok tt))
    by (by rewrite serve_datagram_cases, Hrecv1, Hins1).
  assert (Hrun : trace run =
                 trace (run_socket_server before)
                 ++ [LogException "mongodb error"]
                 ++ [InsertOne (document_of next payload2);
                     LogInfo ("saved message for user: "
                              ++ username (document_of next payload2))]
                 ++ trace (run_socket_server after)).
  { subst run. rewrite run_socket_server_app. cbn [trace fst]. f_equal.
    cbn [run_socket_server]. rewrite Hfailed, bind_trace_ok.
    rewrite serve_datagram_cases, Hrecv2, Hins2, bind_trace_ok. done. }
  split_and!; [done | by subst run; rewrite run_socket_server_app | done |].
  rewrite Hrun, !stored_app. done.
Qed.

(** Two datagrams, the store down for the first one only. *)
Lemma insert_failure_is_survived_witness :
  let failed := mkArrival (Some (b "username=alice&message=hi")) "t1" None in
  let next := mkArrival (Some (b "username=bob&message=yo")) "t2" (Some tt) in
  recvfrom failed = Some (b "username=alice&message=hi") ∧
  insert_one failed = None ∧
  recvfrom next = Some (b "username=bob&message=yo") ∧
  insert_one next = Some tt ∧
  stored (trace (run_socket_server [failed; next]))
    = [{| date := "t2"; username := "bob"; message := "yo" |}].
Proof.
  intros failed next.
  pose proof (insert_failure_is_survived [] [] failed next _ _
                eq_refl eq_refl eq_refl eq_refl) as (_ & _ & _ & H).
  split_and!; [reflexivity.. | exact H].
Defined.

(** ** Further properties of the handler *)

(** X2: a POST to any path but /message is answered as a missing page
    is, and nothing of the request but its path is looked at: the length
    header is not parsed and the body is not read, so all such requests
    get the same answer.  The answer is the error page with status 404, or
    status 500 when the error page cannot be read; the handler returns
    normally either way. *)
Theorem do_POST_elsewhere (env : Env) (req : Request) :
  path req ≠ "/message" →
  (∀ req', path req' ≠ "/message" → do_POST env req' = do_POST env req) ∧
  outcome (do_POST env req) = Ok tt ∧
  (∀ data, read_bytes env (error_page env) = Some data →
           do_POST env req
             = (respond 404 (content_type_of env (error_page env)) data,
                Ok tt)) ∧
  (read_bytes env (error_page env) = None →
   response_of (trace (do_POST env req)) = [SendResponse 500; EndHeaders]).
Proof.
  intros Hpath.
  assert (H404 : ∀ r, path r ≠ "/message" → do_POST env r = _serve_404 env).
  { intros r Hr. apply String.eqb_neq in Hr. unfold do_POST.
    by rewrite Hr. }
  rewrite (H404 req Hpath). unfold _serve_404. fold (error_page env).
  split_and!.
  - intros req' Hpath'. by rewrite (H404 req' Hpath').
  - destruct (read_bytes env (error_page env)) as [data|] eqn:Hread.
    + by erewrite serve_file_read.
    + by erewrite serve_file_unreadable.
  - intros data Hdata. by apply serve_file_read.
  - intros Hread. by erewrite serve_file_unreadable.
Qed.

Lemma do_POST_elsewhere_witness :
  path (post "/index.html" (Some "2") (b "hi")) ≠ "/message" ∧
  do_POST env0 (post "/index.html" (Some "2") (b "hi"))
    = (respond 404 "text/html" (b "<h1>404</h1>"), Ok tt).
Proof.
  assert (H : path (post "/index.html" (Some "2") (b "hi")) ≠ "/message")
    by done.
  split; [exact H|].
  exact (proj1 (proj2 (proj2 (do_POST_elsewhere env0 _ H)))
           (b "<h1>404</h1>") eq_refl).
Defined.

(** X3: a POST to /message without a length header forwards the empty payload,
    and the document of the empty payload has both fields empty. *)
Theorem no_length_header_forwards_nothing (env : Env) (req : Request) :
  path req = "/message" →
  headers_get req "Content-Length" = None →
  int env "0" = Some 0%Z →
  (0 ≤ maxsize env)%Z →
  do_POST env req = (send_udp env [];; (redirect, Ok tt)) ∧
  parse_form_bytes [] = ret {[ "username" := ""; "message" := "" ]}.
Proof.
  intros Hpath Hnone Hzero Hmax.
  assert (Hlen : content_length env req = 0%Z).
  { unfold content_length. rewrite Hnone. simpl. by rewrite Hzero. }
  split.
  - rewrite do_POST_message by (done || lia). by rewrite Hlen.
  - by rewrite parse_form_bytes_first_present.
Qed.

Lemma no_length_header_forwards_nothing_witness :
  let req := post "/message" None (b "ignored") in
  path req = "/message" ∧
  headers_get req "Content-Length" = None ∧
  int env0 "0" = Some 0%Z ∧
  (0 ≤ maxsize env0)%Z ∧
  do_POST env0 req = (Sendto [] :: redirect, Ok tt).
Proof.
  intros req.
  assert (Hmax : (0 ≤ maxsize env0)%Z) by (by vm_compute).
  split_and!; [reflexivity.. | exact Hmax |].
  exact (proj1 (no_length_header_forwards_nothing env0 req
                  eq_refl eq_refl eq_refl Hmax)).
Defined.

(** An answer of [_serve_file]: it never raises, and what it sends is either
    the file with the status it was given, or the bare 500. *)
Lemma serve_file_cases (env : Env) (p : Path) (status : Z) :
  _serve_file env p status =
    (match read_bytes env p with
     | Some data => respond status (content_type_of env p) data
     | None => respond_500 p
     end, Ok tt).
Proof.
  destruct (read_bytes env p) as [data|] eqn:Hread.
  - by apply serve_file_read.
  - by apply serve_file_unreadable.
Qed.

Lemma content_type_of_nonempty (env : Env) (p : Path) :
  content_type_of env p ≠ "".
Proof.
  unfold content_type_of. destruct (guess_type env _) as [ct|]; [|done].
  destruct (String.eqb ct "") eqn:Hct; [done|]. by apply String.eqb_neq.
Qed.

(** X4: a file response is well formed whatever the file and the MIME
    table are.  [_serve_file] never raises.  When the file can be read it
    sends the given status, the content type, a content length that is the
    number of bytes of the body, and as body the bytes of the file; the
    content type is the one [mimetypes.guess_type] gives for the path when
    it gives one that is not empty, and application/octet-stream when it
    gives none or the empty string, so it is never empty.  When the file
    cannot be read it sends status 500 and no header, no body, and never
    the status it was given. *)
Theorem serve_file_answers (env : Env) (p : Path) (status : Z) :
  outcome (_serve_file env p status) = Ok tt ∧
  (∀ data, read_bytes env p = Some data →
     ∃ content_type,
       trace (_serve_file env p status) =
         [SendResponse status;
          SendHeader "Content-Type" content_type;
          SendHeader "Content-Length" (pretty (length data));
          EndHeaders;
          WfileWrite data] ∧
       content_type ≠ "" ∧
       (∀ guessed, guess_type env (pathlib.str p) = Some guessed →
                   guessed ≠ "" → content_type = guessed) ∧
       (guess_type env (pathlib.str p) = None ∨
        guess_type env (pathlib.str p) = Some "" →
        content_type = "application/octet-stream")) ∧
  (read_bytes env p = None →
   response_of (trace (_serve_file env p status))
     = [SendResponse 500; EndHeaders] ∧
   filter is_log (trace (_serve_file env p status))
     = [LogException ("failed to read file: " ++ pathlib.str p)]).
Proof.
  rewrite serve_file_cases. split_and!.
  - done.
  - intros data ->. exists (content_type_of env p).
    split_and!; [done | apply content_type_of_nonempty | |].
    + intros guessed Hguess Hne. unfold content_type_of. rewrite Hguess.
      apply String.eqb_neq in Hne. by rewrite Hne.
    + unfold content_type_of. by intros [-> | ->].
  - by intros ->.
Qed.







(** [do_POST] on the submission path, in all cases: the read raises when
    the length is positive and there is no buffer for it; otherwise the
    first [content_length] bytes go to the relay and the redirect
    follows. *)
Lemma do_POST_message_cases (env : Env) (req : Request) :
  path req = "/message" →
  do_POST env req =
    if ((0 <? content_length env req) && (maxsize env <? content_length env req))%Z
    then raise (read_refusal (content_length env req))
    else (send_udp env (take (Z.to_nat (content_length env req)) (rfile req));;
          (redirect, Ok tt)).
Proof.
  intros Hpath.
  destruct (0 <? content_length env req)%Z eqn:Hpos;
    destruct (maxsize env <? content_length env req)%Z eqn:Hmax; simpl.
  - apply do_POST_overflow; [done | by apply Z.ltb_lt..].
  - apply do_POST_message; [done | by apply Z.ltb_ge].
  - enter_do_POST Hpath. rewrite Hpos, bind_ret.
    apply Z.ltb_ge in Hpos. by rewrite Z2Nat.nonpos.
  - apply do_POST_message; [done | by apply Z.ltb_ge].
Qed.

(** X6: a POST to /message does not touch the file system.  Two
    environments that agree on [int], on the largest buffer a read is
    given and on the network give the same run of [do_POST], however their
    disks and MIME tables differ. *)
Theorem do_POST_message_ignores_files (env env' : Env) (req : Request) :
  path req = "/message" →
  int env = int env' →
  maxsize env = maxsize env' →
  sendto env = sendto env' →
  do_POST env req = do_POST env' req.
Proof.
  intros Hpath Hint Hmax Hsend.
  rewrite !do_POST_message_cases by done.
  unfold content_length. rewrite !send_udp_cases, Hint, Hmax, Hsend. done.
Qed.

(** The example site with and without a readable nested error.html. *)
Lemma do_POST_message_ignores_files_witness :
  let req := post "/message" (Some "2") (b "hi") in
  path req = "/message" ∧
  int env0 = int env1 ∧
  maxsize env0 = maxsize env1 ∧
  sendto env0 = sendto env1 ∧
  read_bytes env0 ["srv"; "app"; "front-init"; "sub"; "error.html"]
    ≠ read_bytes env1 ["srv"; "app"; "front-init"; "sub"; "error.html"] ∧
  do_POST env0 req = do_POST env1 req.
Proof.
  intros req. split_and!; [reflexivity.. | by vm_compute |].
  exact (do_POST_message_ignores_files env0 env1 req
           eq_refl eq_refl eq_refl eq_refl).
Defined.

(** ** Further properties of the receive loop *)

Lemma run_socket_server_cons (a : Arrival) (rest : list Arrival) :
  run_socket_server (a :: rest) =
    (trace (serve_datagram a) ++ trace (run_socket_server rest), Ok tt).
Proof.
  change (a :: rest) with ([a] ++ rest). rewrite run_socket_server_app.
  f_equal. f_equal. simpl. rewrite serve_datagram_cases, bind_trace_ok.
  simpl. by rewrite app_nil_r.
Qed.

(** The loop never ends by itself, and what it stores is what its turns
    accepted. *)
Lemma run_socket_server_stores (arrivals : list Arrival) :
  outcome (run_socket_server arrivals) = Ok tt ∧
  stored (trace (run_socket_server arrivals)) = omap accepted arrivals.
Proof.
  induction arrivals as [|a arrivals [IHout IHstored]]; [done|].
  rewrite run_socket_server_cons. cbn [outcome trace fst snd].
  split; [done|].
  rewrite stored_app, IHstored. cbn [omap list_omap].
  rewrite serve_datagram_cases. unfold accepted.
  by destruct (recvfrom a) as [payload|], (insert_one a) as [[]|].
Qed.

(** X7: the store receives exactly one document per datagram that was
    received and whose insert succeeded, in the order of arrival, built
    from that datagram and stamped with the time of its turn; a turn that
    fails to receive or to insert stores nothing.  No turn ends the loop,
    and every turn leaves exactly one log record, so two equal datagrams
    are two documents. *)
Theorem receive_loop_stores_accepted (arrivals : list Arrival) :
  outcome (run_socket_server arrivals) = Ok tt ∧
  stored (trace (run_socket_server arrivals)) = omap accepted arrivals ∧
  length (filter is_log (trace (run_socket_server arrivals)))
    = length arrivals.
Proof.
  split_and!; [apply run_socket_server_stores.. |].
  induction arrivals as [|a arrivals IH]; [done|].
  rewrite run_socket_server_cons. cbn [trace fst].
  rewrite filter_app, length_app, IH, serve_datagram_cases.
  by destruct (recvfrom a) as [payload|], (insert_one a) as [[]|].
Qed.

(** X8: the units of the program touch disjoint parts of the world.  A
    GET sends no datagram and stores nothing; a POST stores nothing, and
    sends no datagram unless its path is /message; the receive loop sends
    nothing to an HTTP client and sends no datagram. *)
Theorem effects_are_separate :
  (∀ env req ev, ev ∈ trace (do_GET env req) →
                 relays ev = false ∧ persists ev = false) ∧
  (∀ env req ev, ev ∈ trace (do_POST env req) → persists ev = false) ∧
  (∀ env req ev, path req ≠ "/message" →
                 ev ∈ trace (do_POST env req) → relays ev = false) ∧
  (∀ arrivals ev, ev ∈ trace (run_socket_server arrivals) →
                  to_client ev = false ∧ relays ev = false).
Proof.
  assert (Hfile : ∀ env p status ev,
            ev ∈ trace (_serve_file env p status) →
            relays ev = false ∧ persists ev = false).
  { intros env p status ev. rewrite serve_file_cases. cbn [trace fst].
    destruct (read_bytes env p) as [data|]; cbn;
      intros Hev;
      repeat (apply elem_of_cons in Hev as [-> | Hev]; [done|]);
      by apply elem_of_nil in Hev. }
  assert (Hrouter : ∀ env route_path,
            trace (file_path_for_route env route_path) = []).
  { intros env route_path.
    destruct (str_in route_path literal_routes) eqn:Hlit.
    - apply literal_route_cases in Hlit. unfold literal_routes in Hlit.
      repeat (apply elem_of_cons in Hlit as [-> | Hlit]); try done.
      by apply elem_of_nil in Hlit.
    - rewrite file_path_for_route_fallback by done.
      destruct (resolve env _) as [q|e]; [done|].
      by destruct (bool_decide (e = OSError)). }
  split_and!.
  - intros env req ev. unfold do_GET, _serve_path.
    pose proof (Hrouter env (path req)) as Htrace.
    destruct (file_path_for_route env (path req)) as [t [p|e]];
      cbn [trace fst] in Htrace; subst t.
    + change (([], Ok p) : M Path) with (ret p : M Path).
      rewrite !bind_ret.
      destruct (str_in _ _); [apply Hfile|].
      destruct (String.eqb _ _); apply Hfile.
    + destruct (str_in _ _); cbn; intros Hev; by apply elem_of_nil in Hev.
  - intros env req ev.
    destruct (String.eqb (path req) "/message") eqn:Hpath.
    + apply String.eqb_eq in Hpath.
      rewrite do_POST_message_cases by done.
      destruct (_ && _); [cbn; intros Hev; by apply elem_of_nil in Hev|].
      rewrite send_udp_cases, bind_trace_ok. cbn [trace fst].
      destruct (sendto env _); cbn; intros Hev;
        repeat (apply elem_of_cons in Hev as [-> | Hev]; [done|]);
        by apply elem_of_nil in Hev.
    + unfold do_POST. rewrite Hpath. cbn [negb].
      intros Hev. by apply Hfile in Hev as [_ ?].
  - intros env req ev Hpath. apply String.eqb_neq in Hpath.
    unfold do_POST. rewrite Hpath. cbn [negb].
    intros Hev. by apply Hfile in Hev as [? _].
  - intros arrivals ev. induction arrivals as [|a arrivals IH].
    + cbn. intros Hev. by apply elem_of_nil in Hev.
    + rewrite run_socket_server_cons. cbn [trace fst].
      intros [Hev | Hev]%elem_of_app; [|by apply IH].
      rewrite serve_datagram_cases in Hev. cbn [trace fst] in Hev.
      destruct (recvfrom a) as [payload|], (insert_one a) as [[]|];
        repeat (apply elem_of_cons in Hev as [-> | Hev]; [done|]);
        by apply elem_of_nil in Hev.
Qed.

(** ** Forms without escapes *)

Lemma chars_app (s1 s2 : string) :
  list_ascii_of_string (s1 ++ s2)
    = list_ascii_of_string s1 ++ list_ascii_of_string s2.
Proof.
  induction s1 as [|a s1 IH]; [done|].
  change (String a s1 ++ s2)%string with (String a (s1 ++ s2)%string).
  cbn [list_ascii_of_string]. by rewrite IH.
Qed.

Lemma contains_app (c : ascii) (s1 s2 : string) :
  urllib.contains c (s1 ++ s2)
    = urllib.contains c s1 || urllib.contains c s2.
Proof. unfold urllib.contains. by rewrite chars_app, existsb_app. Qed.

(** Safe text holds none of the characters of the form syntax. *)
Lemma safe_contains (s : string) (c : ascii) :
  safe s = true → c ∈ ["&"; "="; "+"; "%"]%char →
  urllib.contains c s = false.
Proof.
  unfold safe, urllib.contains. intros Hsafe Hc.
  apply not_true_is_false. rewrite existsb_exists.
  intros (a & Hin & Heq). apply Ascii.eqb_eq in Heq as <-.
  rewrite forallb_forall in Hsafe. specialize (Hsafe c Hin).
  unfold safe_char in Hsafe.
  repeat (apply elem_of_cons in Hc as [-> | Hc]; [by vm_compute in Hsafe|]).
  by apply elem_of_nil in Hc.
Qed.

Lemma safe_is_ascii (s : string) :
  safe s = true → forallb urllib.is_ascii (list_ascii_of_string s) = true.
Proof.
  unfold safe. rewrite !forallb_forall. intros Hsafe a Ha.
  specialize (Hsafe a Ha). unfold safe_char in Hsafe.
  by repeat (apply andb_prop in Hsafe as [Hsafe _]).
Qed.

Lemma plus_to_space_without (s : string) :
  urllib.contains "+" s = false → urllib.plus_to_space s = s.
Proof.
  induction s as [|a s IH]; [done|].
  rewrite contains_cons. intros [Ha Hs]%orb_false_elim.
  simpl. by rewrite Ha, IH.
Qed.

Lemma split_without (sep : ascii) (s : string) :
  urllib.contains sep s = false → split sep s = [s].
Proof.
  induction s as [|a s IH]; [done|].
  rewrite contains_cons. intros [Ha Hs]%orb_false_elim.
  simpl. by rewrite Ha, IH.
Qed.

Lemma split1_at (sep : ascii) (s1 s2 : string) :
  urllib.contains sep s1 = false →
  urllib.split1 sep (s1 ++ String sep s2) = [s1; s2].
Proof.
  induction s1 as [|a s1 IH].
  - intros _. change ("" ++ String sep s2)%string with (String sep s2).
    simpl. by rewrite Ascii.eqb_refl.
  - rewrite contains_cons. intros [Ha Hs]%orb_false_elim.
    change (String a s1 ++ String sep s2)%string
      with (String a (s1 ++ String sep s2)%string).
    simpl. by rewrite Ha, IH.
Qed.

(** A field of safe text is read back as it was written, unless its value
    is blank. *)
Lemma parse_field_safe (name value : string) :
  safe name = true → safe value = true →
  urllib.parse_field (name ++ "=" ++ value) =
    if decide (value ≠ "") then Some (name, value) else None.
Proof.
  intros Hname Hvalue. unfold urllib.parse_field.
  change (name ++ "=" ++ value)%string
    with (name ++ String "=" value)%string.
  rewrite split1_at by (apply safe_contains; [done | set_solver]).
  assert (Hne : String.eqb (name ++ String "=" value) "" = false).
  { apply String.eqb_neq. by destruct name. }
  rewrite Hne.
  destruct value as [|a value]; [done|]. cbn [String.length Nat.ltb Nat.leb].
  unfold urllib.unquote.
  rewrite !plus_to_space_without
    by (apply safe_contains; [done | set_solver]).
  assert (Hpercent : ∀ s, safe s = true → urllib.contains "%" s = false).
  { intros s Hs. apply safe_contains; [done | set_solver]. }
  by rewrite !Hpercent.
Qed.

Lemma split_join (sep : ascii) (texts : list string) :
  texts ≠ [] →
  Forall (λ w, urllib.contains sep w = false) texts →
  split sep (join (String sep "") texts) = texts.
Proof.
  intros Hne Hall. induction Hall as [|w texts Hw Hall IH]; [done|].
  destruct texts as [|w' texts].
  - by apply split_without.
  - change (join (String sep "") (w :: w' :: texts))
      with (w ++ String sep (join (String sep "") (w' :: texts)))%string.
    rewrite split_app, IH, split_without by done. done.
Qed.

(** The pairs of a form of safe text are its fields that have a value. *)
Lemma parse_qsl_form (fields : list (string * string)) :
  Forall (λ field, safe (fst field) = true ∧ safe (snd field) = true) fields →
  urllib.parse_qsl (form fields) = with_value fields.
Proof.
  intros Hsafe. destruct fields as [|field0 fields0]; [done|].
  remember (field0 :: fields0) as fields eqn:Hfields.
  rewrite parse_qsl_split. unfold form.
  rewrite split_join.
  - clear Hfields. unfold with_value.
    induction Hsafe as [|[name value] fields [Hname Hvalue] _ IH]; [done|].
    cbn [map omap list_omap fst snd]. rewrite parse_field_safe by done.
    rewrite filter_cons. cbn [snd].
    destruct (decide (value ≠ "")); by rewrite <- IH.
  - by subst fields.
  - clear Hfields. induction Hsafe as [|[name value] fields [Hn Hv] _ IH];
      constructor; [|done].
    cbn [fst snd]. change (name ++ "=" ++ value)%string
      with (name ++ String "=" value)%string.
    assert (Hamp : ∀ s, safe s = true → urllib.contains "&" s = false).
    { intros s Hs. apply safe_contains; [done | set_solver]. }
    rewrite contains_app, contains_cons. by rewrite !Hamp.
Qed.

(** The bytes of a character. *)
Lemma byte_of_ascii_to_N (a : ascii) :
  Byte.to_N (byte_of_ascii a) = N_of_ascii a.
Proof. by destruct a as [[] [] [] [] [] [] [] []]. Qed.

(** Text made of ASCII characters survives encoding and decoding. *)
Lemma decode_ascii_text (s : string) :
  forallb urllib.is_ascii (list_ascii_of_string s) = true →
  codecs.decode codecs.ignore (b s) = s.
Proof.
  intros Hascii. unfold b. rewrite decode_ascii.
  - apply string_of_list_byte_of_string.
  - unfold list_byte_of_string. rewrite Forall_forall.
    intros x Hx. apply list_elem_of_In, in_map_iff in Hx as (a & <- & Ha).
    rewrite forallb_forall in Hascii. specialize (Hascii a Ha).
    rewrite byte_of_ascii_to_N. by apply N.ltb_lt.
Qed.

Lemma form_is_ascii (fields : list (string * string)) :
  Forall (λ field, safe (fst field) = true ∧ safe (snd field) = true) fields →
  forallb urllib.is_ascii (list_ascii_of_string (form fields)) = true.
Proof.
  intros Hsafe. unfold form.
  induction Hsafe as [|[name value] fields [Hn Hv] Hsafe IH]; [done|].
  cbn [fst snd] in Hn, Hv.
  assert (Hfield : forallb urllib.is_ascii
                     (list_ascii_of_string (name ++ "=" ++ value)) = true).
  { rewrite !chars_app, !forallb_app.
    by rewrite (safe_is_ascii name), (safe_is_ascii value). }
  destruct fields as [|field' fields]; [exact Hfield|].
  change (join "&" (map _ ((name, value) :: field' :: fields)))
    with ((name ++ "=" ++ value) ++ "&"
          ++ join "&" (map (λ field, (fst field ++ "=" ++ snd field)%string)
                           (field' :: fields)))%string.
  rewrite (chars_app (name ++ "=" ++ value)), forallb_app, Hfield.
  by rewrite (chars_app "&"), forallb_app, IH.
Qed.

Lemma pairs_of_form (fields : list (string * string)) :
  Forall (λ field, safe (fst field) = true ∧ safe (snd field) = true) fields →
  pairs_of (b (form fields)) = with_value fields.
Proof.
  intros Hsafe. unfold pairs_of.
  rewrite decode_ascii_text by (by apply form_is_ascii).
  by apply parse_qsl_form.
Qed.

(** X9: a form without escapes is read back as it was written.  The pairs
    of its bytes are its fields that have a value, in order; so the user
    name is the first non-blank username field, else the first non-blank
    name field, the message the first non-blank message field, and the
    empty string stands for a field that is missing or blank throughout. *)
Theorem safe_form_is_read_back (fields : list (string * string)) :
  Forall (λ field, safe (fst field) = true ∧ safe (snd field) = true) fields →
  pairs_of (b (form fields)) = with_value fields ∧
  parse_form_bytes (b (form fields)) =
    ret {[ "username" := first_present ["username"; "name"]
                           (with_value fields);
           "message" := first_present ["message"] (with_value fields) ]}.
Proof.
  intros Hsafe. split; [by apply pairs_of_form|].
  by rewrite parse_form_bytes_first_present, pairs_of_form.
Qed.

(** A blank username gives way to the name field, and the first message
    wins. *)
Lemma safe_form_is_read_back_witness :
  parse_form_bytes (b "username=&name=bob&message=hi&message=again") =
    ret {[ "username" := "bob"; "message" := "hi" ]}.
Proof.
  exact (proj2 (safe_form_is_read_back
                  [("username", ""); ("name", "bob");
                   ("message", "hi"); ("message", "again")]
                  ltac:(repeat constructor))).
Defined.

(** X10: a submission goes through the whole program unchanged.  When the
    body of a POST to /message is the form of a user name and a message
    without escapes and the Content-Length is its length, the datagram
    that leaves is that body; and the turn of the receive loop that gets
    this datagram stores one document with that user name and that
    message, stamped with the time of the turn. *)
Theorem submission_reaches_the_store (env : Env) (req : Request)
  (a : Arrival) (u m : string) :
  path req = "/message" →
  safe u = true → safe m = true →
  rfile req = b (form [("username", u); ("message", m)]) →
  content_length env req = Z.of_nat (length (rfile req)) →
  (content_length env req ≤ maxsize env)%Z →
  sendto env (rfile req) = Some tt →
  recvfrom a = Some (rfile req) →
  insert_one a = Some tt →
  do_POST env req = (Sendto (rfile req) :: redirect, Ok tt) ∧
  serve_datagram a =
    ([InsertOne {| date := now a; username := u; message := m |};
      LogInfo ("saved message for user: " ++ u)], Ok tt).
Proof.
  intros Hpath Hu Hm Hbody Hlen Hmax Hsend Hrecv Hinsert. split.
  - rewrite do_POST_message, Hlen, Nat2Z.id, firstn_all by done.
    by rewrite send_udp_cases, Hsend.
  - rewrite serve_datagram_cases, Hrecv, Hinsert. unfold document_of.
    rewrite Hbody, pairs_of_form by (by repeat constructor).
    by destruct u, m.
Qed.

Lemma submission_reaches_the_store_witness :
  let body := b "username=alice&message=hi" in
  let req := post "/message" (Some "25") body in
  let a := {| recvfrom := Some body;
              now := "2024-05-01 10:00:00.000000";
              insert_one := Some tt |} in
  do_POST env0 req = (Sendto body :: redirect, Ok tt) ∧
  stored (trace (serve_datagram a))
    = [{| date := "2024-05-01 10:00:00.000000";
          username := "alice"; message := "hi" |}].
Proof.
  intros body req a.
  pose proof (submission_reaches_the_store env0 req a "alice" "hi"
                eq_refl eq_refl eq_refl eq_refl eq_refl
                ltac:(by vm_compute) eq_refl eq_refl eq_refl) as [Hpost Hturn].
  split; [exact Hpost|]. by rewrite Hturn.
Defined.

(** ** The start of the socket server *)

(** X11: of the steps before the receive loop only the ping may fail.  The
    loop is reached exactly when logging, the client, the collection and
    the socket are there, whatever the ping answers; a failed ping leaves
    one log record and the loop stores what it would have stored.  When one
    of the other steps fails the exception leaves [run_socket_server] and
    nothing is stored. *)
Theorem only_the_ping_may_fail (socket_port : Z) (w : Startup)
  (arrivals : list Arrival) :
  (outcome (run_socket_server_from_start socket_port w arrivals) = Ok tt ↔
   logging_setup w = Some tt ∧ mongo_client w = Ok tt ∧
   collection w = Ok tt ∧ bind_socket w = Some tt) ∧
  (outcome (run_socket_server_from_start socket_port w arrivals) = Ok tt →
   stored (trace (run_socket_server_from_start socket_port w arrivals))
     = omap accepted arrivals ∧
   ∀ e, ping w = Raise e →
        LogException "cannot connect to mongodb"
          ∈ trace (run_socket_server_from_start socket_port w arrivals)) ∧
  (outcome (run_socket_server_from_start socket_port w arrivals) ≠ Ok tt →
   stored (trace (run_socket_server_from_start socket_port w arrivals)) = []).
Proof.
  destruct (run_socket_server_stores arrivals) as [Hout Hstored].
  unfold run_socket_server_from_start.
  destruct (run_socket_server arrivals) as [t r].
  cbn [outcome trace fst snd] in Hout, Hstored. subst r.
  destruct w as [[[]|] [[]|e1] [[]|e2] [[]|e3] [[]|]];
    cbn; split_and!; try done;
    try (split; [discriminate | by intros (? & ? & ? & ?)]).
  intros _. split; [done|]. intros e _. by right; left.
Qed.
